(** * The libhdfs++ logging facility: lib/common/logging.h and logging.cc

    A shallow embedding of the filter-and-dispatch core (LoggerInterface,
    StderrLogger, CForwardingLogger, LogManager, LogMessageObj) together
    with the properties that the design document states about it, further
    properties read off the code, and the cancellation handles of
    lib/common/cancelable.h.

    Conventions.
    - C++ enumerations are inductive types with their numeric encodings.
    - [uint32_t] fields are integers in [Z]; the wrap-around of the bit
      operations is written out with [u32].
    - Pointers are [option addr]: [None] is [nullptr].
    - Code that reads or writes C memory lives in the monad [M], whose
      failure value stands for undefined behaviour.
    - The global state of [LogManager] is a [World]; every static member
      function is one atomic transition of it (the body runs under
      [impl_lock_]). *)

From Stdlib Require Import ZArith Ascii String DecimalString HexadecimalString Lia.
From stdpp Require Import base option list strings gmap fin_maps.

Local Open Scope Z_scope.

(** ** Enumerations (logging.h, lines 37-51) *)

Inductive LogLevel : Type :=
  | kTrace | kDebug | kInfo | kWarning | kError.

Inductive LogSourceComponent : Type :=
  | kUnknown | kRPC | kBlockReader | kFileHandle | kFileSystem.

Definition LogLevel_val (l : LogLevel) : Z :=
  match l with
  | kTrace => 0 | kDebug => 1 | kInfo => 2 | kWarning => 3 | kError => 4
  end.

Definition LogSourceComponent_val (c : LogSourceComponent) : Z :=
  match c with
  | kUnknown     => Z.shiftl 1 0
  | kRPC         => Z.shiftl 1 1
  | kBlockReader => Z.shiftl 1 2
  | kFileHandle  => Z.shiftl 1 3
  | kFileSystem  => Z.shiftl 1 4
  end.

(** ** LoggerInterface: the filter state shared by every sink *)

(** Reduction of an integer to the range of [uint32_t]. *)
Definition u32 (z : Z) : Z := z mod 2 ^ 32.

Record LoggerInterface : Type := mkLoggerInterface {
  component_mask_ : Z;   (* uint32_t *)
  level_threshold_ : Z   (* uint32_t *)
}.

(** [LoggerInterface() : component_mask_(0xFFFFFFFF), level_threshold_(kTrace)] *)
Definition LoggerInterface_ctor : LoggerInterface :=
  {| component_mask_ := 0xFFFFFFFF; level_threshold_ := LogLevel_val kTrace |}.

Definition LoggerInterface_ShouldLog
    (self : LoggerInterface) (level : LogLevel) (component : LogSourceComponent) : bool :=
  if LogLevel_val level <? level_threshold_ self then false
  else if Z.land (LogSourceComponent_val component) (component_mask_ self) =? 0 then false
  else true.

(** [component_mask_ |= c] *)
Definition LoggerInterface_EnableLoggingForComponent
    (c : LogSourceComponent) (self : LoggerInterface) : LoggerInterface :=
  {| component_mask_ := u32 (Z.lor (component_mask_ self) (LogSourceComponent_val c));
     level_threshold_ := level_threshold_ self |}.

(** [component_mask_ &= ~c] *)
Definition LoggerInterface_DisableLoggingForComponent
    (c : LogSourceComponent) (self : LoggerInterface) : LoggerInterface :=
  {| component_mask_ :=
       u32 (Z.land (component_mask_ self) (u32 (Z.lnot (LogSourceComponent_val c))));
     level_threshold_ := level_threshold_ self |}.

(** ** C memory

    Addresses are non-zero machine words; a pointer is an address or
    [nullptr].  Memory is a finite map from addresses to the object that
    starts there. *)

Definition addr : Type := positive.
Definition ptr : Type := option addr.

(** Modelled from the spec: the [LogData] record of [hdfspp/hdfs_ext.h], a
    plain record {level: integer, component: integer, message: text}; the
    text is a [const char *] as [CopyLogData] and [FreeLogData] use it. *)
Record LogData : Type := mkLogData {
  msg : ptr;
  level : Z;
  component : Z
}.

Inductive block : Type :=
  | BChars (s : string)       (* a NUL-terminated char array with C-string value s *)
  | BLogData (d : LogData)    (* a LogData struct *)
  | BStdString (s : string).  (* a std::string object holding s *)

Abbreviation heap := (gmap addr block).

(** The monad of C code: a state transformer over the heap that may go
    wrong ([None]: undefined behaviour). *)
Definition M (A : Type) : Type := heap -> option (A * heap).

Definition ret {A} (a : A) : M A := fun h => Some (a, h).

Definition bind {A B} (m : M A) (k : A -> M B) : M B :=
  fun h => match m h with
           | Some (a, h') => k a h'
           | None => None
           end.

Declare Scope cmem_scope.
Delimit Scope cmem_scope with cmem.
Notation "'let*' x ':=' m 'in' k" := (bind m (fun x => k))
  (at level 10, x name, m at level 100, k at level 200) : cmem_scope.

Definition load_LogData (p : addr) : M LogData :=
  fun h => match h !! p with
           | Some (BLogData d) => Some (d, h)
           | _ => None
           end.

Definition store_LogData (p : addr) (d : LogData) : M unit :=
  fun h => match h !! p with
           | Some (BLogData _) => Some (tt, <[p := BLogData d]> h)
           | _ => None
           end.

Definition load_cstr (p : addr) : M string :=
  fun h => match h !! p with
           | Some (BChars s) => Some (s, h)
           | _ => None
           end.

(** [malloc]: the allocator either fails or returns an address that is not
    in use; the new object holds whatever bytes were there ([junk]).  The
    allocator's decision is an input ([choice]); a choice of an address
    that is in use is not a behaviour of [malloc] and counts as failure. *)
Definition malloc (choice : option addr) (junk : block) : M ptr :=
  fun h => match choice with
           | Some a =>
               match h !! a with
               | None => Some (Some a, <[a := junk]> h)
               | Some _ => Some (None, h)
               end
           | None => Some (None, h)
           end.

(** [free] of a non-null pointer: the object must be live. *)
Definition free (p : addr) : M unit :=
  fun h => match h !! p with
           | Some _ => Some (tt, delete p h)
           | None => None
           end.

(** [strdup]: reads the C string, then allocates the duplicate. *)
Definition strdup (choice : option addr) (p : addr) : M ptr :=
  (let* s := load_cstr p in malloc choice (BChars s))%cmem.

(** ** CForwardingLogger::CopyLogData and FreeLogData (logging.cc, 168-192) *)

(** What the allocator does during one call of [CopyLogData]: the result
    of [malloc(sizeof(LogData))], the bytes found in the fresh struct, and
    the result of the allocation inside [strdup]. *)
Record Allocator : Type := mkAllocator {
  malloc_result : option addr;
  malloc_junk : LogData;
  strdup_result : option addr
}.

Definition set_level (p : addr) (v : Z) : M unit :=
  (let* d := load_LogData p in
   store_LogData p {| msg := msg d; level := v; component := component d |})%cmem.

Definition set_component (p : addr) (v : Z) : M unit :=
  (let* d := load_LogData p in
   store_LogData p {| msg := msg d; level := level d; component := v |})%cmem.

Definition set_msg (p : addr) (v : ptr) : M unit :=
  (let* d := load_LogData p in
   store_LogData p {| msg := v; level := level d; component := component d |})%cmem.

Definition CForwardingLogger_CopyLogData (al : Allocator) (orig : ptr) : M ptr :=
  match orig with
  | None => ret None                                     (* if(!orig) return nullptr; *)
  | Some o =>
      (let* copy := malloc (malloc_result al) (BLogData (malloc_junk al)) in
       match copy with
       | None => ret None                                (* if(!copy) return nullptr; *)
       | Some c =>
           let* d := load_LogData o in
           let* _ := set_level c (level d) in            (* copy->level = orig->level; *)
           let* d := load_LogData o in
           let* _ := set_component c (component d) in    (* copy->component = orig->component; *)
           let* d := load_LogData o in
           let* _ :=
             match msg d with                            (* if(orig->msg) *)
             | Some s =>
                 let* q := strdup (strdup_result al) s in
                 set_msg c q                             (* copy->msg = strdup(orig->msg); *)
             | None => ret tt
             end in
           ret (Some c)
       end)%cmem
  end.

Definition CForwardingLogger_FreeLogData (data : ptr) : M unit :=
  match data with
  | None => ret tt                                       (* if(!data) return; *)
  | Some p =>
      (let* d := load_LogData p in
       let* _ :=
         match msg d with                                (* if(data->msg) free(data->msg); *)
         | Some q => free q
         | None => ret tt
         end in
       (* memset(data, 0, sizeof(LogData)); *)
       let* _ := store_LogData p {| msg := None; level := 0; component := 0 |} in
       free p)%cmem
  end.

(** ** LogMessageObj: the message builder (logging.h, 145-187) *)

Record LogMessageObj : Type := mkLogMessageObj {
  worth_reporting_ : bool;
  level_ : LogLevel;
  component_ : LogSourceComponent;
  msg_buffer_ : string
}.

(** [msg_buffer_ << s] for a run of characters [s]. *)
Definition buffer_put (s : string) (self : LogMessageObj) : LogMessageObj :=
  {| worth_reporting_ := worth_reporting_ self;
     level_ := level_ self;
     component_ := component_ self;
     msg_buffer_ := msg_buffer_ self +:+ s |}.

(** Integers are inserted in decimal (the stream's default base). *)
Definition render_int (z : Z) : string :=
  DecimalString.NilZero.string_of_int (Z.to_int z).

(** Insertion of a [const void *] is implementation-defined; this is what
    libstdc++ prints: the address in hexadecimal with the base prefix,
    and a plain 0 for the null pointer. *)
Definition render_pointer (p : ptr) : string :=
  match p with
  | None => "0"
  | Some a => "0x" +:+ HexadecimalString.NilZero.string_of_uint (Pos.to_hex_uint a)
  end.

Definition LogMessageObj_is_worth_reporting (self : LogMessageObj) : bool :=
  worth_reporting_ self.

(** [operator<<(const std::string *str)].  The stream receives the pointer
    itself, and a pointer to an object converts to [const void *]. *)
Definition LogMessageObj_shl_string_ptr (str : ptr) (self : LogMessageObj) : LogMessageObj :=
  if bool_decide (is_Some str) && worth_reporting_ self
  then buffer_put (render_pointer str) self
  else self.

(** [operator<<(const std::string& str)] *)
Definition LogMessageObj_shl_string (str : string) (self : LogMessageObj) : LogMessageObj :=
  if worth_reporting_ self then buffer_put str self else self.

(** [operator<<(const char *str)]: the characters are read from memory
    only behind the guard [str && worth_reporting_]. *)
Definition LogMessageObj_shl_cstr (h : heap) (str : ptr) (self : LogMessageObj)
    : option LogMessageObj :=
  match str with
  | Some a =>
      if worth_reporting_ self
      then match load_cstr a h with
           | Some (s, _) => Some (buffer_put s self)
           | None => None
           end
      else Some self
  | None => Some self
  end.

(** [operator<<(bool val)] *)
Definition LogMessageObj_shl_bool (val : bool) (self : LogMessageObj) : LogMessageObj :=
  if worth_reporting_ self
  then (if val then buffer_put "true" self else buffer_put "false" self)
  else self.

(** [operator<<] on [int32_t], [uint32_t], [int64_t] and [uint64_t]; the
    argument is a value of that type. *)
Definition LogMessageObj_shl_int32 (val : Z) (self : LogMessageObj) : LogMessageObj :=
  if worth_reporting_ self then buffer_put (render_int val) self else self.

Definition LogMessageObj_shl_uint32 (val : Z) (self : LogMessageObj) : LogMessageObj :=
  if worth_reporting_ self then buffer_put (render_int val) self else self.

Definition LogMessageObj_shl_int64 (val : Z) (self : LogMessageObj) : LogMessageObj :=
  if worth_reporting_ self then buffer_put (render_int val) self else self.

Definition LogMessageObj_shl_uint64 (val : Z) (self : LogMessageObj) : LogMessageObj :=
  if worth_reporting_ self then buffer_put (render_int val) self else self.

(** [operator<<(void *ptr)] *)
Definition LogMessageObj_shl_void_ptr (p : ptr) (self : LogMessageObj) : LogMessageObj :=
  if worth_reporting_ self then buffer_put (render_pointer p) self else self.

Definition LogMessageObj_MsgString (self : LogMessageObj) : string :=
  if worth_reporting_ self then msg_buffer_ self else "".

Definition kLevelStrings : list string :=
  ["[TRACE ]"; "[DEBUG ]"; "[INFO  ]"; "[WARN  ]"; "[ERROR ]"].

Definition LogMessageObj_level_string (self : LogMessageObj) : string :=
  nth (Z.to_nat (LogLevel_val (level_ self))) kLevelStrings "".

Definition kComponentStrings : list string :=
  ["[Unknown     ]"; "[RPC         ]"; "[BlockReader ]"; "[FileHandle  ]";
   "[FileSystem  ]"].

Definition LogMessageObj_component_string (self : LogMessageObj) : string :=
  match component_ self with
  | kRPC => nth 1 kComponentStrings ""
  | kBlockReader => nth 2 kComponentStrings ""
  | kFileHandle => nth 3 kComponentStrings ""
  | kFileSystem => nth 4 kComponentStrings ""
  | _ => nth 0 kComponentStrings ""
  end.

(** The overloads of [operator<<], as the argument of one append. *)
Inductive AppendArg : Type :=
  | ACharPtr (str : ptr)        (* const char *        *)
  | AString (str : string)      (* const std::string & *)
  | AStringPtr (str : ptr)      (* const std::string * *)
  | ABool (val : bool)
  | AInt32 (val : Z)
  | AUInt32 (val : Z)
  | AInt64 (val : Z)
  | AUInt64 (val : Z)
  | AVoidPtr (p : ptr).

(** Overload resolution: [self << a]. *)
Definition LogMessageObj_shl (h : heap) (a : AppendArg) (self : LogMessageObj)
    : option LogMessageObj :=
  match a with
  | ACharPtr str => LogMessageObj_shl_cstr h str self
  | AString str => Some (LogMessageObj_shl_string str self)
  | AStringPtr str => Some (LogMessageObj_shl_string_ptr str self)
  | ABool val => Some (LogMessageObj_shl_bool val self)
  | AInt32 val => Some (LogMessageObj_shl_int32 val self)
  | AUInt32 val => Some (LogMessageObj_shl_uint32 val self)
  | AInt64 val => Some (LogMessageObj_shl_int64 val self)
  | AUInt64 val => Some (LogMessageObj_shl_uint64 val self)
  | AVoidPtr p => Some (LogMessageObj_shl_void_ptr p self)
  end.

(** A chain [self << a1 << a2 << ...]. *)
Fixpoint LogMessageObj_shl_chain (h : heap) (args : list AppendArg) (self : LogMessageObj)
    : option LogMessageObj :=
  match args with
  | [] => Some self
  | a :: rest =>
      match LogMessageObj_shl h a self with
      | Some self' => LogMessageObj_shl_chain h rest self'
      | None => None
      end
  end.

(** ** The sinks (logging.h, 87-120; logging.cc, 95-166) *)

(** What a sink does to the outside: characters sent to [std::cerr], and
    calls of the registered C callback, seen with the record it is given
    (the text is what the callee reads through [data.msg]). *)
Inductive Output : Type :=
  | Cerr (text : string)
  | CallbackInvoked (fn : addr) (data_level data_component : Z) (data_msg : string).

(** What [Write] reads from its surroundings: the string returned by
    [std::asctime(std::localtime(&current_time))] and the insertion of
    [std::this_thread::get_id()]. *)
Record Env : Type := mkEnv {
  asctime_now : string;
  this_thread_id : string
}.

Definition endl : string := String "010"%char EmptyString.

(** [std::string::c_str()] as a callee reads it: up to the first NUL. *)
Fixpoint c_str (s : string) : string :=
  match s with
  | EmptyString => EmptyString
  | String c rest => if Ascii.eqb c "000"%char then EmptyString else String c (c_str rest)
  end.

(** [int len = strlen(timestr); if(len >= 2) timestr[len-1] = 0;] *)
Definition chop_newline (timestr : string) : string :=
  let len := Z.of_nat (String.length timestr) in
  if 2 <=? len then substring 0 (Z.to_nat (len - 1)) timestr else timestr.

(** [LoggerInterface::SetLogLevel] also prints a line on [std::cerr]. *)
Definition LoggerInterface_SetLogLevel (level : LogLevel) (self : LoggerInterface)
    : LoggerInterface * list Output :=
  ({| component_mask_ := component_mask_ self;
      level_threshold_ := LogLevel_val level |},
   [Cerr ("SETLOGLEVEL_CALLED_" +:+ endl)]).

Record StderrLogger : Type := mkStderrLogger {
  stderr_base : LoggerInterface;
  show_timestamp_ : bool;
  show_level_ : bool;
  show_thread_ : bool;
  show_component_ : bool
}.

Definition StderrLogger_ctor : StderrLogger :=
  {| stderr_base := LoggerInterface_ctor;
     show_timestamp_ := true; show_level_ := true;
     show_thread_ := true; show_component_ := true |}.

Definition StderrLogger_set_show_timestamp (show : bool) (self : StderrLogger) : StderrLogger :=
  {| stderr_base := stderr_base self;
     show_timestamp_ := show; show_level_ := show_level_ self;
     show_thread_ := show_thread_ self; show_component_ := show_component_ self |}.

Definition StderrLogger_set_show_level (show : bool) (self : StderrLogger) : StderrLogger :=
  {| stderr_base := stderr_base self;
     show_timestamp_ := show_timestamp_ self; show_level_ := show;
     show_thread_ := show_thread_ self; show_component_ := show_component_ self |}.

Definition StderrLogger_set_show_thread (show : bool) (self : StderrLogger) : StderrLogger :=
  {| stderr_base := stderr_base self;
     show_timestamp_ := show_timestamp_ self; show_level_ := show_level_ self;
     show_thread_ := show; show_component_ := show_component_ self |}.

Definition StderrLogger_set_show_component (show : bool) (self : StderrLogger) : StderrLogger :=
  {| stderr_base := stderr_base self;
     show_timestamp_ := show_timestamp_ self; show_level_ := show_level_ self;
     show_thread_ := show_thread_ self; show_component_ := show |}.

(** The four optional fields of a line, in the order [Write] emits them
    when it emits them. *)
Definition level_field (m : LogMessageObj) : string := LogMessageObj_level_string m.
Definition component_field (m : LogMessageObj) : string := LogMessageObj_component_string m.
Definition timestamp_field (env : Env) : string :=
  "[" +:+ chop_newline (asctime_now env) +:+ "]".
Definition thread_field (env : Env) : string :=
  "[Thread id = " +:+ this_thread_id env +:+ "]".

(** [StderrLogger::Write] (logging.cc, 103-130). *)
Definition StderrLogger_Write (env : Env) (self : StderrLogger) (m : LogMessageObj)
    : list Output :=
  if negb (LogMessageObj_is_worth_reporting m) then []
  else
    let formatted := "" in
    let formatted :=
      if show_level_ self then formatted +:+ level_field m else formatted in
    let formatted :=
      if show_component_ self then formatted +:+ component_field m else formatted in
    let formatted :=
      if show_timestamp_ self then formatted +:+ timestamp_field env else formatted in
    let formatted :=
      if show_component_ self then formatted +:+ thread_field env else formatted in
    [Cerr (formatted +:+ "    " +:+ LogMessageObj_MsgString m +:+ endl)].

Record CForwardingLogger : Type := mkCForwardingLogger {
  cfwd_base : LoggerInterface;
  callback_ : option addr       (* void (*callback_)(LogData*) *)
}.

Definition CForwardingLogger_ctor : CForwardingLogger :=
  {| cfwd_base := LoggerInterface_ctor; callback_ := None |}.

Definition CForwardingLogger_SetCallback (callback : option addr) (self : CForwardingLogger)
    : CForwardingLogger :=
  {| cfwd_base := cfwd_base self; callback_ := callback |}.

(** [CForwardingLogger::Write] (logging.cc, 148-162). *)
Definition CForwardingLogger_Write (self : CForwardingLogger) (m : LogMessageObj)
    : list Output :=
  if negb (LogMessageObj_is_worth_reporting m) then []
  else
    match callback_ self with
    | None => []
    | Some fn =>
        let text := LogMessageObj_MsgString m in
        [CallbackInvoked fn (LogLevel_val (level_ m))
                         (LogSourceComponent_val (component_ m)) (c_str text)]
    end.

(** An object behind a [std::unique_ptr<LoggerInterface>]. *)
Inductive Logger : Type :=
  | IsStderrLogger (s : StderrLogger)
  | IsCForwardingLogger (c : CForwardingLogger).

(** The base-class subobject. *)
Definition Logger_base (lg : Logger) : LoggerInterface :=
  match lg with
  | IsStderrLogger s => stderr_base s
  | IsCForwardingLogger c => cfwd_base c
  end.

Definition Logger_with_base (b : LoggerInterface) (lg : Logger) : Logger :=
  match lg with
  | IsStderrLogger s =>
      IsStderrLogger
        {| stderr_base := b;
           show_timestamp_ := show_timestamp_ s; show_level_ := show_level_ s;
           show_thread_ := show_thread_ s; show_component_ := show_component_ s |}
  | IsCForwardingLogger c =>
      IsCForwardingLogger {| cfwd_base := b; callback_ := callback_ c |}
  end.

(** The virtual call [logger->Write(msg)]. *)
Definition Logger_Write (env : Env) (lg : Logger) (m : LogMessageObj) : list Output :=
  match lg with
  | IsStderrLogger s => StderrLogger_Write env s m
  | IsCForwardingLogger c => CForwardingLogger_Write c m
  end.

(** ** LogManager (logging.cc, 30-72) *)

Record World : Type := mkWorld {
  logger_impl_ : option Logger;   (* std::unique_ptr<LoggerInterface> *)
  output : list Output            (* everything the sinks did so far, oldest first *)
}.

(** [logger_impl_(new StderrLogger())] *)
Definition World_init : World :=
  {| logger_impl_ := Some (IsStderrLogger StderrLogger_ctor); output := [] |}.

Definition LogManager_DisableLogForComponent (c : LogSourceComponent) (w : World) : World :=
  match logger_impl_ w with
  | Some lg =>
      {| logger_impl_ :=
           Some (Logger_with_base
                   (LoggerInterface_DisableLoggingForComponent c (Logger_base lg)) lg);
         output := output w |}
  | None => w
  end.

Definition LogManager_EnableLogForComponent (c : LogSourceComponent) (w : World) : World :=
  match logger_impl_ w with
  | Some lg =>
      {| logger_impl_ :=
           Some (Logger_with_base
                   (LoggerInterface_EnableLoggingForComponent c (Logger_base lg)) lg);
         output := output w |}
  | None => w
  end.

Definition LogManager_SetLogLevel (level : LogLevel) (w : World) : World :=
  match logger_impl_ w with
  | Some lg =>
      let '(b, out) := LoggerInterface_SetLogLevel level (Logger_base lg) in
      {| logger_impl_ := Some (Logger_with_base b lg);
         output := output w ++ out |}
  | None => w
  end.

Definition LogManager_ShouldLog (level : LogLevel) (source : LogSourceComponent) (w : World)
    : bool :=
  match logger_impl_ w with
  | Some lg => LoggerInterface_ShouldLog (Logger_base lg) level source
  | None => false
  end.

Definition LogManager_Write (env : Env) (m : LogMessageObj) (w : World) : World :=
  match logger_impl_ w with
  | Some lg =>
      {| logger_impl_ := logger_impl_ w;
         output := output w ++ Logger_Write env lg m |}
  | None => w
  end.

(** [logger_impl_.reset(nullptr); logger_impl_.reset(impl.release());] *)
Definition LogManager_SetLoggerImplementation (impl : option Logger) (w : World) : World :=
  let w := {| logger_impl_ := None; output := output w |} in
  {| logger_impl_ := impl; output := output w |}.

(** A reconfiguration of the manager, by any thread. *)
Inductive ManagerOp : Type :=
  | OpEnableLogForComponent (c : LogSourceComponent)
  | OpDisableLogForComponent (c : LogSourceComponent)
  | OpSetLogLevel (level : LogLevel)
  | OpSetLoggerImplementation (impl : option Logger).

Definition LogManager_apply (op : ManagerOp) (w : World) : World :=
  match op with
  | OpEnableLogForComponent c => LogManager_EnableLogForComponent c w
  | OpDisableLogForComponent c => LogManager_DisableLogForComponent c w
  | OpSetLogLevel level => LogManager_SetLogLevel level w
  | OpSetLoggerImplementation impl => LogManager_SetLoggerImplementation impl w
  end.

(** ** The life of a message object

    A message calls into [LogManager] from its constructor and from its
    destructor.  To count these calls the world is paired with the
    history of the calls that message objects made. *)

Inductive Call : Type :=
  | CallShouldLog (level : LogLevel) (source : LogSourceComponent)
  | CallWrite (m : LogMessageObj).

Record Traced : Type := mkTraced {
  world : World;
  calls : list Call
}.

(** [LogMessageObj(l, component)]: the member initialiser
    [worth_reporting_(LogManager::ShouldLog(l,component))]. *)
Definition LogMessageObj_ctor (l : LogLevel) (c : LogSourceComponent) (t : Traced)
    : LogMessageObj * Traced :=
  ({| worth_reporting_ := LogManager_ShouldLog l c (world t);
      level_ := l;
      component_ := c;
      msg_buffer_ := "" |},
   {| world := world t; calls := calls t ++ [CallShouldLog l c] |}).

(** [~LogMessageObj()]: [if(worth_reporting_) LogManager::Write( *this );] *)
Definition LogMessageObj_dtor (env : Env) (self : LogMessageObj) (t : Traced) : Traced :=
  if worth_reporting_ self
  then {| world := LogManager_Write env self (world t);
          calls := calls t ++ [CallWrite self] |}
  else t.

(** What can happen between construction and destruction: the owner
    appends a value, or the manager is reconfigured. *)
Inductive Step : Type :=
  | StepAppend (a : AppendArg)
  | StepManager (op : ManagerOp).

Fixpoint run_steps (h : heap) (steps : list Step) (self : LogMessageObj) (t : Traced)
    : option (LogMessageObj * Traced) :=
  match steps with
  | [] => Some (self, t)
  | StepAppend a :: rest =>
      match LogMessageObj_shl h a self with
      | Some self' => run_steps h rest self' t
      | None => None
      end
  | StepManager op :: rest =>
      run_steps h rest self
        {| world := LogManager_apply op (world t); calls := calls t |}
  end.

(** A whole log statement: construct, run the steps, destroy. *)
Definition log_statement (env : Env) (h : heap) (l : LogLevel) (c : LogSourceComponent)
    (steps : list Step) (t : Traced) : option Traced :=
  let '(m0, t0) := LogMessageObj_ctor l c t in
  match run_steps h steps m0 t0 with
  | Some (m1, t1) => Some (LogMessageObj_dtor env m1 t1)
  | None => None
  end.

(** An argument that a worth-reporting message can render: a non-null
    [const char *] must point to a C string. *)
Definition arg_ok (h : heap) (a : AppendArg) : bool :=
  match a with
  | ACharPtr (Some p) =>
      match h !! p with
      | Some (BChars _) => true
      | _ => false
      end
  | _ => true
  end.

Definition step_ok (h : heap) (s : Step) : bool :=
  match s with
  | StepAppend a => arg_ok h a
  | StepManager _ => true
  end.

(** The manager's state after the reconfigurations among [steps]. *)
Fixpoint world_after (steps : list Step) (w : World) : World :=
  match steps with
  | [] => w
  | StepAppend _ :: rest => world_after rest w
  | StepManager op :: rest => world_after rest (LogManager_apply op w)
  end.

(** The filter condition of the design document. *)
Definition accepts (self : LoggerInterface) (l : LogLevel) (c : LogSourceComponent) : Prop :=
  LogLevel_val l >= level_threshold_ self /\
  Z.land (LogSourceComponent_val c) (component_mask_ self) <> 0.

(** [CopyLogData] followed by [FreeLogData] on what it returned. *)
Definition copy_then_free (al : Allocator) (orig : ptr) : M unit :=
  (let* copy := CForwardingLogger_CopyLogData al orig in
   CForwardingLogger_FreeLogData copy)%cmem.

(** ** Concrete states for the examples *)

Definition example_env : Env :=
  {| asctime_now := "Thu Jan  1 00:00:00 1970" +:+ endl;
     this_thread_id := "140213" |}.

(** The sink of the test driver: a [CForwardingLogger] with a callback
    installed, here with the given filter state. *)
Definition capturing_sink (threshold mask : Z) : Logger :=
  IsCForwardingLogger
    {| cfwd_base := {| component_mask_ := mask; level_threshold_ := threshold |};
       callback_ := Some 1%positive |}.

Definition traced_with (lg : option Logger) : Traced :=
  {| world := {| logger_impl_ := lg; output := [] |}; calls := [] |}.

Definition accepted_message (l : LogLevel) (c : LogSourceComponent) (text : string)
    : LogMessageObj :=
  {| worth_reporting_ := true; level_ := l; component_ := c; msg_buffer_ := text |}.

Definition suppressed_message : LogMessageObj :=
  {| worth_reporting_ := false; level_ := kDebug; component_ := kRPC; msg_buffer_ := "" |}.

(** Memory with one C string, at address 5. *)
Definition example_heap : heap := {[ 5%positive := BChars "disk " ]}.

(** Appends interleaved with reconfigurations that would reject the
    message had they come before its construction. *)
Definition example_steps : list Step :=
  [ StepAppend (ACharPtr (Some 5%positive));
    StepManager (OpDisableLogForComponent kRPC);
    StepAppend (AInt32 42);
    StepManager (OpSetLogLevel kError);
    StepAppend (ABool true) ].

(** A forwarded record without text, alone in memory at address 1. *)
Definition textless_record : LogData := {| msg := None; level := 3; component := 2 |}.
Definition textless_heap : heap := {[ 1%positive := BLogData textless_record ]}.

(** A forwarded record whose text "hi" is at address 5. *)
Definition text_record : LogData := {| msg := Some 5%positive; level := 3; component := 2 |}.
Definition text_heap : heap :=
  <[ 5%positive := BChars "hi" ]> {[ 1%positive := BLogData text_record ]}.

(** An allocator that places the copy at address 2, in memory whose
    first field holds the stale pointer [stale], and whose second
    allocation fails. *)
Definition stale_allocator (stale : ptr) : Allocator :=
  {| malloc_result := Some 2%positive;
     malloc_junk := {| msg := stale; level := 77; component := 77 |};
     strdup_result := None |}.

(** The configuration of the test driver's scenario: the capturing sink
    installed, every component disabled, then RPC enabled and the
    threshold set to [kWarning]. *)
Definition warning_rpc_world : World :=
  LogManager_SetLogLevel kWarning
    (LogManager_EnableLogForComponent kRPC
       (LogManager_DisableLogForComponent kFileSystem
          (LogManager_DisableLogForComponent kFileHandle
             (LogManager_DisableLogForComponent kBlockReader
                (LogManager_DisableLogForComponent kRPC
                   (LogManager_DisableLogForComponent kUnknown
                      (LogManager_SetLoggerImplementation
                         (Some (IsCForwardingLogger
                                  (CForwardingLogger_SetCallback (Some 1%positive)
                                     CForwardingLogger_ctor)))
                         World_init))))))).

(** ** Definitions for the further properties *)

#[global] Instance LogLevel_eq_dec : EqDecision LogLevel.
Proof. solve_decision. Defined.

#[global] Instance LogSourceComponent_eq_dec : EqDecision LogSourceComponent.
Proof. solve_decision. Defined.

(** The position of a component's bit: [kRPC = 1 << 1] and so on. *)
Definition component_bit (c : LogSourceComponent) : Z :=
  match c with
  | kUnknown => 0 | kRPC => 1 | kBlockReader => 2 | kFileHandle => 3 | kFileSystem => 4
  end.

Definition all_levels : list LogLevel :=
  [kTrace; kDebug; kInfo; kWarning; kError].

Definition all_components : list LogSourceComponent :=
  [kUnknown; kRPC; kBlockReader; kFileHandle; kFileSystem].

(** The five calls that open the tests MaskAll and MaskOne of
    logging_test.cc: [LogManager::DisableLogForComponent] on every
    component in turn. *)
Definition disable_all_components (w : World) : World :=
  fold_left (fun w c => LogManager_DisableLogForComponent c w) all_components w.

(** A run of reconfigurations, first to last. *)
Definition LogManager_apply_all (ops : list ManagerOp) (w : World) : World :=
  fold_left (fun w op => LogManager_apply op w) ops w.

(** The reconfigurations that go to the filter state of the installed
    sink (every one but the installation of a sink). *)
Definition is_filter_op (op : ManagerOp) : bool :=
  match op with
  | OpSetLoggerImplementation _ => false
  | _ => true
  end.

(** The characters that one append puts in the buffer of a message that
    is worth reporting; [None] when a non-null [const char *] does not
    point to a C string. *)
Definition render_arg (h : heap) (a : AppendArg) : option string :=
  match a with
  | ACharPtr None => Some ""
  | ACharPtr (Some p) =>
      match h !! p with
      | Some (BChars s) => Some s
      | _ => None
      end
  | AString s => Some s
  | AStringPtr None => Some ""
  | AStringPtr (Some p) => Some (render_pointer (Some p))
  | ABool val => Some (if val then "true" else "false")
  | AInt32 val | AUInt32 val | AInt64 val | AUInt64 val => Some (render_int val)
  | AVoidPtr p => Some (render_pointer p)
  end.

Fixpoint render_args (h : heap) (args : list AppendArg) : option string :=
  match args with
  | [] => Some ""
  | a :: rest =>
      match render_arg h a, render_args h rest with
      | Some s, Some r => Some (s +:+ r)
      | _, _ => None
      end
  end.

(** Whether a string holds a NUL character. *)
Fixpoint has_nul (s : string) : bool :=
  match s with
  | EmptyString => false
  | String c rest => Ascii.eqb c "000"%char || has_nul rest
  end.



(** The arguments of the appends among [steps], in order. *)
Fixpoint step_args (steps : list Step) : list AppendArg :=
  match steps with
  | [] => []
  | StepAppend a :: rest => a :: step_args rest
  | StepManager _ :: rest => step_args rest
  end.

(** An allocator whose two allocations succeed, at addresses 2 and 3. *)
Definition working_allocator : Allocator :=
  {| malloc_result := Some 2%positive;
     malloc_junk := {| msg := Some 1%positive; level := 77; component := 77 |};
     strdup_result := Some 3%positive |}.

(** A record is well formed in [h] when it is live and its text is null
    or a C string. *)
Definition well_formed_record (h : heap) (o : addr) (d : LogData) : Prop :=
  h !! o = Some (BLogData d) /\
  match msg d with
  | None => True
  | Some s => exists txt, h !! s = Some (BChars txt)
  end.

(** ** cancelable.h

    [Cancelable] is an interface with the one method [cancel()].  An
    object of the interface is a [NullCancelable], a [CancelHandle] with
    its [target_] (a [std::shared_ptr], empty or not), or an object of
    some other class that implements the interface, known here by its
    identity. *)
Inductive Cancelable : Type :=
  | NullCancelable
  | CancelHandle (target_ : shared_ptr_Cancelable)
  | OtherCancelable (id : positive)
with shared_ptr_Cancelable : Type :=
  | sp_empty
  | sp_to (x : Cancelable).

(** [cancel()]: the calls of [cancel()] that reach objects of other
    classes, in order; [None] when an empty [target_] is dereferenced. *)
Fixpoint Cancelable_cancel (self : Cancelable) : option (list positive) :=
  match self with
  | NullCancelable => Some []                       (* virtual void cancel() {} *)
  | CancelHandle target =>
      match target with
      | sp_to x => Cancelable_cancel x              (* target_->cancel(); *)
      | sp_empty => None
      end
  | OtherCancelable id => Some [id]
  end.

(** [n] handles, each constructed on a pointer to the previous object. *)
Fixpoint handles (n : nat) (x : Cancelable) : Cancelable :=
  match n with
  | O => x
  | S k => CancelHandle (sp_to (handles k x))
  end.


(** * Properties *)

(** ** Strings *)

Lemma append_cons (a : ascii) (s1 s2 : string) :
  String a s1 +:+ s2 = String a (s1 +:+ s2).
Proof. reflexivity. Qed.

Lemma append_assoc (s1 s2 s3 : string) :
  (s1 +:+ s2) +:+ s3 = s1 +:+ (s2 +:+ s3).
Proof.
  induction s1 as [|a s1 IH]; [reflexivity|].
  rewrite !append_cons, IH. reflexivity.
Qed.


(** ** Appending preserves everything but the buffer *)

Section Append.

Variable h : heap.

Lemma shl_suppressed (a : AppendArg) (m : LogMessageObj) :
  worth_reporting_ m = false -> LogMessageObj_shl h a m = Some m.
Proof.
  intros Hw. destruct a as [[p|]| | [p|] | | | | | |]; simpl;
    unfold LogMessageObj_shl_cstr, LogMessageObj_shl_string,
      LogMessageObj_shl_string_ptr, LogMessageObj_shl_bool,
      LogMessageObj_shl_int32, LogMessageObj_shl_uint32,
      LogMessageObj_shl_int64, LogMessageObj_shl_uint64,
      LogMessageObj_shl_void_ptr;
    rewrite ?Hw, ?andb_false_r; reflexivity.
Qed.

Lemma shl_chain_suppressed (args : list AppendArg) (m : LogMessageObj) :
  worth_reporting_ m = false -> LogMessageObj_shl_chain h args m = Some m.
Proof.
  intros Hw. induction args as [|a args IH]; simpl.
  - reflexivity.
  - rewrite shl_suppressed by exact Hw. exact IH.
Qed.

Lemma shl_preserves (a : AppendArg) (m m' : LogMessageObj) :
  LogMessageObj_shl h a m = Some m' ->
  worth_reporting_ m' = worth_reporting_ m /\
  level_ m' = level_ m /\ component_ m' = component_ m.
Proof.
  destruct a as [[p|]| | str | [|] | | | | |]; simpl;
    unfold LogMessageObj_shl_cstr, LogMessageObj_shl_string,
      LogMessageObj_shl_string_ptr, LogMessageObj_shl_bool,
      LogMessageObj_shl_int32, LogMessageObj_shl_uint32,
      LogMessageObj_shl_int64, LogMessageObj_shl_uint64,
      LogMessageObj_shl_void_ptr;
    try destruct (bool_decide (is_Some str));
    destruct (worth_reporting_ m) eqn:Hw; simpl;
    try destruct (load_cstr p h) as [[s ?]|];
    intros Heq; inversion Heq; subst; simpl; auto.
Qed.

Lemma shl_defined (a : AppendArg) (m : LogMessageObj) :
  arg_ok h a = true -> is_Some (LogMessageObj_shl h a m).
Proof.
  destruct a as [[p|]| | | | | | | |]; simpl; intros Hok; try (eexists; reflexivity).
  unfold LogMessageObj_shl_cstr, load_cstr.
  destruct (worth_reporting_ m); [|eexists; reflexivity].
  destruct (h !! p) as [[s| |]|]; try discriminate. eexists; reflexivity.
Qed.

End Append.

(** ** The steps between construction and destruction *)

Section Lifetime.

Variable h : heap.

Lemma world_after_appends (args : list AppendArg) (w : World) :
  world_after (map StepAppend args) w = w.
Proof. induction args as [|a args IH]; simpl; auto. Qed.

Lemma forallb_step_ok_appends (args : list AppendArg) :
  forallb (step_ok h) (map StepAppend args) = forallb (arg_ok h) args.
Proof. induction args as [|a args IH]; simpl; [reflexivity | now rewrite IH]. Qed.

Lemma run_steps_appends (args : list AppendArg) (m : LogMessageObj) (t : Traced) :
  run_steps h (map StepAppend args) m t =
  match LogMessageObj_shl_chain h args m with
  | Some m' => Some (m', t)
  | None => None
  end.
Proof.
  revert m. induction args as [|a args IH]; intros m; simpl.
  - reflexivity.
  - destruct (LogMessageObj_shl h a m) as [m1|]; [apply IH | reflexivity].
Qed.

(** A suppressed message goes through any steps untouched, whatever the
    pointers it is handed. *)
Lemma run_steps_suppressed (steps : list Step) (m : LogMessageObj) (t : Traced) :
  worth_reporting_ m = false ->
  run_steps h steps m t =
  Some (m, {| world := world_after steps (world t); calls := calls t |}).
Proof.
  intros Hw. revert t. induction steps as [|[a|op] steps IH]; intros t; simpl.
  - destruct t; reflexivity.
  - rewrite shl_suppressed by exact Hw. apply IH.
  - rewrite IH. reflexivity.
Qed.

(** With renderable arguments the steps run to completion; they change
    neither the cached decision nor the level nor the component, and
    they add no call to the history. *)
Lemma run_steps_ok (steps : list Step) (m : LogMessageObj) (t : Traced) :
  forallb (step_ok h) steps = true ->
  exists m',
    run_steps h steps m t =
      Some (m', {| world := world_after steps (world t); calls := calls t |}) /\
    worth_reporting_ m' = worth_reporting_ m /\
    level_ m' = level_ m /\ component_ m' = component_ m.
Proof.
  revert m t. induction steps as [|[a|op] steps IH]; intros m t Hok; simpl in *.
  - exists m. destruct t; auto.
  - apply andb_prop in Hok as [Ha Hrest].
    destruct (shl_defined h a m Ha) as [m1 Hm1]. rewrite Hm1.
    destruct (shl_preserves h a m m1 Hm1) as (Hw & Hl & Hc).
    destruct (IH m1 t Hrest) as (m' & Hrun & Hw' & Hl' & Hc').
    exists m'. repeat split; congruence.
  - destruct (IH m {| world := LogManager_apply op (world t); calls := calls t |} Hok)
      as (m' & Hrun & Hrest).
    exists m'. split; [exact Hrun | exact Hrest].
Qed.

End Lifetime.

(** ** Filter correctness *)

Lemma ShouldLog_accepts (self : LoggerInterface) (l : LogLevel) (c : LogSourceComponent) :
  LoggerInterface_ShouldLog self l c = true <-> accepts self l c.
Proof.
  unfold LoggerInterface_ShouldLog, accepts.
  destruct (Z.ltb_spec (LogLevel_val l) (level_threshold_ self)) as [Hlt|Hge].
  - split; [discriminate | intros [Hl _]; lia].
  - destruct (Z.eqb_spec (Z.land (LogSourceComponent_val c) (component_mask_ self)) 0)
      as [Hz|Hnz].
    + split; [discriminate | intros [_ Hc]; contradiction].
    + split; [intros _; split; [lia | exact Hnz] | reflexivity].
Qed.

Lemma ShouldLog_rejects (self : LoggerInterface) (l : LogLevel) (c : LogSourceComponent) :
  LoggerInterface_ShouldLog self l c = false <-> ~ accepts self l c.
Proof.
  rewrite <- ShouldLog_accepts.
  destruct (LoggerInterface_ShouldLog self l c); split; intros H; congruence.
Qed.

(** C1.  [LoggerInterface::ShouldLog] returns true exactly when the level
    reaches the threshold and the component's bit is in the mask; and a
    log statement run against an installed sink with that filter state
    hands its message to the sink's [Write] exactly under that condition
    (once, with the accumulated text), and otherwise leaves the world as
    it was. *)
Theorem ShouldLog_filter_correct :
  forall (self : LoggerInterface) (l : LogLevel) (c : LogSourceComponent),
    (LoggerInterface_ShouldLog self l c = true <->
       LogLevel_val l >= level_threshold_ self /\
       Z.land (LogSourceComponent_val c) (component_mask_ self) <> 0) /\
    (forall (lg : Logger) (env : Env) (h : heap) (args : list AppendArg)
            (out : list Output) (cs : list Call),
        Logger_base lg = self ->
        let t := {| world := {| logger_impl_ := Some lg; output := out |};
                    calls := cs |} in
        (accepts self l c -> forallb (arg_ok h) args = true ->
         exists m,
           worth_reporting_ m = true /\ level_ m = l /\ component_ m = c /\
           LogMessageObj_shl_chain h args (fst (LogMessageObj_ctor l c t)) = Some m /\
           log_statement env h l c (map StepAppend args) t =
             Some {| world := {| logger_impl_ := Some lg;
                                 output := out ++ Logger_Write env lg m |};
                     calls := cs ++ [CallShouldLog l c; CallWrite m] |}) /\
        (~ accepts self l c ->
         log_statement env h l c (map StepAppend args) t =
           Some {| world := {| logger_impl_ := Some lg; output := out |};
                   calls := cs ++ [CallShouldLog l c] |})).
Proof.
  intros self l c. split; [apply ShouldLog_accepts|].
  intros lg env h args out cs <- t. split.
  - intros Hacc Hok. apply ShouldLog_accepts in Hacc.
    rewrite <- (forallb_step_ok_appends h) in Hok.
    destruct (run_steps_ok h (map StepAppend args)
                (fst (LogMessageObj_ctor l c t)) (snd (LogMessageObj_ctor l c t)) Hok)
      as (m & Hrun & Hw & Hl & Hc).
    exists m. simpl in Hw, Hl, Hc. unfold LogManager_ShouldLog in Hw. simpl in Hw.
    rewrite Hacc in Hw.
    repeat split; try assumption.
    + pose proof (run_steps_appends h args (fst (LogMessageObj_ctor l c t))
                    (snd (LogMessageObj_ctor l c t))) as Hchain.
      rewrite Hrun in Hchain.
      destruct (LogMessageObj_shl_chain h args (fst (LogMessageObj_ctor l c t)));
        [congruence | discriminate].
    + unfold log_statement. simpl in Hrun |- *. rewrite Hrun.
      rewrite world_after_appends. unfold LogMessageObj_dtor. rewrite Hw.
      unfold LogManager_Write. simpl. rewrite <- app_assoc. reflexivity.
  - intros Hrej. apply ShouldLog_rejects in Hrej.
    unfold log_statement. simpl.
    rewrite run_steps_suppressed.
    + simpl. rewrite world_after_appends. unfold LogMessageObj_dtor. simpl.
      unfold LogManager_ShouldLog. simpl. rewrite Hrej. reflexivity.
    + simpl. unfold LogManager_ShouldLog. simpl. exact Hrej.
Qed.

(** The scenario of the design document: threshold [kWarning] and, of the
    five named components, RPC alone enabled (the bits above the fifth
    stay set from the constructor's 0xFFFFFFFF); of one message per level
    tagged RPC and one at [kError] tagged FileSystem, the two at
    [kWarning] and [kError] tagged RPC pass. *)
Example warning_rpc_scenario :
  option_map Logger_base (logger_impl_ warning_rpc_world) =
    Some {| component_mask_ := 0xFFFFFFE2; level_threshold_ := 3 |} /\
  filter (fun lc => LogManager_ShouldLog (fst lc) (snd lc) warning_rpc_world = true)
    [(kTrace, kRPC); (kDebug, kRPC); (kInfo, kRPC); (kWarning, kRPC); (kError, kRPC);
     (kError, kFileSystem)] =
  [(kWarning, kRPC); (kError, kRPC)].
Proof. split; vm_compute; reflexivity. Qed.

(** ** Suppressed messages *)

(** C2.  For a message whose [worth_reporting_] flag is false, every
    append (each overload, and any chain of them, whatever the pointers
    point to) returns the message with its buffer unchanged, [MsgString]
    is empty, and the destructor makes no call to [LogManager::Write]: the
    world and the call history stay as they were. *)
Theorem suppressed_message_is_inert :
  forall (h : heap) (args : list AppendArg) (m : LogMessageObj),
    worth_reporting_ m = false ->
    (forall a, exists m',
        LogMessageObj_shl h a m = Some m' /\ msg_buffer_ m' = msg_buffer_ m) /\
    (exists m',
        LogMessageObj_shl_chain h args m = Some m' /\
        msg_buffer_ m' = msg_buffer_ m /\
        LogMessageObj_MsgString m' = "" /\
        forall env t, LogMessageObj_dtor env m' t = t).
Proof.
  intros h args m Hw. split.
  - intros a. exists m. split; [apply shl_suppressed; exact Hw | reflexivity].
  - exists m. split; [apply shl_chain_suppressed; exact Hw|].
    split; [reflexivity|].
    unfold LogMessageObj_MsgString, LogMessageObj_dtor. rewrite Hw.
    split; [reflexivity | intros env t; reflexivity].
Qed.

(** ** The decision is taken once *)

(** C3.  The constructor makes one call to [LogManager::ShouldLog] and the
    flag it caches is the answer of that call; appends and later changes
    of the threshold, of the mask or of the installed sink do not alter
    it.  The destructor calls [LogManager::Write] once, with the message
    (its text, level and component), when the flag is true, and makes no
    call when it is false. *)
Theorem acceptance_fixed_at_construction :
  forall (env : Env) (h : heap) (l : LogLevel) (c : LogSourceComponent)
         (steps : list Step) (t : Traced),
    forallb (step_ok h) steps = true ->
    exists m,
      run_steps h steps (fst (LogMessageObj_ctor l c t)) (snd (LogMessageObj_ctor l c t)) =
        Some (m, {| world := world_after steps (world t);
                    calls := calls t ++ [CallShouldLog l c] |}) /\
      worth_reporting_ m = LogManager_ShouldLog l c (world t) /\
      level_ m = l /\ component_ m = c /\
      log_statement env h l c steps t =
        Some (if LogManager_ShouldLog l c (world t)
              then {| world := LogManager_Write env m (world_after steps (world t));
                      calls := calls t ++ [CallShouldLog l c; CallWrite m] |}
              else {| world := world_after steps (world t);
                      calls := calls t ++ [CallShouldLog l c] |}).
Proof.
  intros env h l c steps t Hok.
  destruct (run_steps_ok h steps (fst (LogMessageObj_ctor l c t))
              (snd (LogMessageObj_ctor l c t)) Hok) as (m & Hrun & Hw & Hl & Hc).
  simpl in Hrun, Hw, Hl, Hc.
  exists m. repeat split; try assumption.
  unfold log_statement. simpl. rewrite Hrun.
  unfold LogMessageObj_dtor. rewrite Hw.
  destruct (LogManager_ShouldLog l c (world t)); simpl.
  - rewrite <- app_assoc. reflexivity.
  - reflexivity.
Qed.

(** ** No sink installed *)

(** C4.  With [logger_impl_] null, [LogManager::ShouldLog] is false for
    every level and component, and [Write], [EnableLogForComponent],
    [DisableLogForComponent] and [SetLogLevel] leave the world exactly as
    it was; a whole log statement then runs to completion, whatever it is
    handed, and changes nothing. *)
Theorem no_sink_is_a_noop :
  forall (w : World),
    logger_impl_ w = None ->
    (forall l c, LogManager_ShouldLog l c w = false) /\
    (forall env m, LogManager_Write env m w = w) /\
    (forall c, LogManager_EnableLogForComponent c w = w) /\
    (forall c, LogManager_DisableLogForComponent c w = w) /\
    (forall l, LogManager_SetLogLevel l w = w) /\
    (forall env h l c args cs,
        log_statement env h l c (map StepAppend args) {| world := w; calls := cs |} =
        Some {| world := w; calls := cs ++ [CallShouldLog l c] |}).
Proof.
  intros w Hnull.
  assert (Hshould : forall l c, LogManager_ShouldLog l c w = false).
  { intros l c. unfold LogManager_ShouldLog. rewrite Hnull. reflexivity. }
  repeat split.
  - exact Hshould.
  - intros env m. unfold LogManager_Write. rewrite Hnull. reflexivity.
  - intros c. unfold LogManager_EnableLogForComponent. rewrite Hnull. reflexivity.
  - intros c. unfold LogManager_DisableLogForComponent. rewrite Hnull. reflexivity.
  - intros l. unfold LogManager_SetLogLevel. rewrite Hnull. reflexivity.
  - intros env h l c args cs. unfold log_statement. simpl.
    rewrite run_steps_suppressed by (simpl; apply Hshould).
    simpl. rewrite world_after_appends. unfold LogMessageObj_dtor. simpl.
    rewrite Hshould. reflexivity.
Qed.

(** ** A fresh sink lets everything through *)

(** C9.  A freshly constructed sink has mask 0xFFFFFFFF and threshold
    [kTrace]; this holds for the base class and for both derived classes,
    whose own setters do not touch the filter state; so [ShouldLog] is
    true for every level and every component, also through the manager
    in its initial state. *)
Theorem fresh_sink_accepts_everything :
  component_mask_ LoggerInterface_ctor = 0xFFFFFFFF /\
  level_threshold_ LoggerInterface_ctor = LogLevel_val kTrace /\
  Logger_base (IsStderrLogger StderrLogger_ctor) = LoggerInterface_ctor /\
  Logger_base (IsCForwardingLogger CForwardingLogger_ctor) = LoggerInterface_ctor /\
  (forall b s,
      stderr_base (StderrLogger_set_show_timestamp b s) = stderr_base s /\
      stderr_base (StderrLogger_set_show_level b s) = stderr_base s /\
      stderr_base (StderrLogger_set_show_thread b s) = stderr_base s /\
      stderr_base (StderrLogger_set_show_component b s) = stderr_base s) /\
  (forall cb s, cfwd_base (CForwardingLogger_SetCallback cb s) = cfwd_base s) /\
  (forall l c, LoggerInterface_ShouldLog LoggerInterface_ctor l c = true) /\
  (forall l c, LogManager_ShouldLog l c World_init = true).
Proof.
  repeat split; try (intros l c; destruct l, c; reflexivity).
Qed.

(** ** Null pointers *)

(** C10.  Appending a null [const char *] or a null [const std::string *]
    gives back the same message, buffer included, also when the message
    is worth reporting; the result is defined for every memory, so
    nothing is read through the pointer. *)
Theorem null_pointer_append_is_noop :
  forall (h : heap) (m : LogMessageObj),
    LogMessageObj_shl_cstr h None m = Some m /\
    LogMessageObj_shl_string_ptr None m = m /\
    LogMessageObj_shl h (ACharPtr None) m = Some m /\
    LogMessageObj_shl h (AStringPtr None) m = Some m.
Proof.
  intros h m. repeat split.
Qed.

(** ** Text appended to an accepted message *)

(** The [const std::string &] and [const char *] overloads put the text
    itself in the buffer, and the sink's [Write] receives a message whose
    [MsgString] is that text. *)
Lemma text_roundtrip (env : Env) (h : heap) (lg : Logger) (l : LogLevel)
    (c : LogSourceComponent) (a : AppendArg) (text : string) (out : list Output) :
  accepts (Logger_base lg) l c ->
  a = AString text \/ (exists p, a = ACharPtr (Some p) /\ h !! p = Some (BChars text)) ->
  LogMessageObj_MsgString (accepted_message l c text) = text /\
  log_statement env h l c [StepAppend a]
    {| world := {| logger_impl_ := Some lg; output := out |}; calls := [] |} =
  Some {| world := {| logger_impl_ := Some lg;
                      output := out ++ Logger_Write env lg (accepted_message l c text) |};
          calls := [CallShouldLog l c; CallWrite (accepted_message l c text)] |}.
Proof.
  intros Hacc Ha. apply ShouldLog_accepts in Hacc. split; [reflexivity|].
  unfold log_statement, LogMessageObj_ctor, LogManager_ShouldLog. simpl.
  rewrite Hacc.
  destruct Ha as [-> | (p & -> & Hp)]; simpl.
  - reflexivity.
  - unfold load_cstr. rewrite Hp. reflexivity.
Qed.

(** The [const std::string *] overload puts in the buffer the rendering
    of the address, whatever the string at that address is. *)
Lemma shl_string_ptr_ignores_pointee (h1 h2 : heap) (p : addr) (m : LogMessageObj) :
  worth_reporting_ m = true ->
  LogMessageObj_shl h1 (AStringPtr (Some p)) m = LogMessageObj_shl h2 (AStringPtr (Some p)) m /\
  LogMessageObj_shl h1 (AStringPtr (Some p)) m = Some (buffer_put (render_pointer (Some p)) m).
Proof.
  intros Hw. simpl. unfold LogMessageObj_shl_string_ptr. rewrite Hw.
  rewrite bool_decide_eq_true_2 by (eexists; reflexivity). simpl. auto.
Qed.

(** C5, at the failing input: a [std::string] holding "abc" lives at
    address 7; appending a pointer to it to an accepted message makes the
    sink receive the text "0x7". *)
Theorem string_pointer_append_delivers_address :
  let h : heap := {[ 7%positive := BStdString "abc" ]} in
  let t := traced_with (Some (capturing_sink 0 0xFFFFFFFF)) in
  LogMessageObj_shl h (AStringPtr (Some 7%positive)) (accepted_message kError kRPC "") =
    Some (accepted_message kError kRPC "0x7") /\
  log_statement example_env h kError kRPC [StepAppend (AStringPtr (Some 7%positive))] t =
    Some {| world := {| logger_impl_ := Some (capturing_sink 0 0xFFFFFFFF);
                        output := [CallbackInvoked 1%positive 4 2 "0x7"] |};
            calls := [CallShouldLog kError kRPC;
                      CallWrite (accepted_message kError kRPC "0x7")] |}.
Proof. split; reflexivity. Qed.

(** ** The console sink's toggles *)

(** [show_thread_] is never read by [Write]. *)
Lemma show_thread_is_ignored (env : Env) (b : bool) (s : StderrLogger) (m : LogMessageObj) :
  StderrLogger_Write env (StderrLogger_set_show_thread b s) m = StderrLogger_Write env s m.
Proof. reflexivity. Qed.

(** C8, at the failing input: with every field on, turning the thread
    toggle off leaves the line as it was, thread identifier included; and
    turning the component toggle off removes the component tag and the
    thread identifier together. *)
Theorem thread_field_follows_component_toggle :
  let m := accepted_message kInfo kRPC "hi" in
  StderrLogger_Write example_env StderrLogger_ctor m =
    [Cerr ("[INFO  ][RPC         ][Thu Jan  1 00:00:00 1970][Thread id = 140213]    hi"
           +:+ endl)] /\
  StderrLogger_Write example_env (StderrLogger_set_show_thread false StderrLogger_ctor) m =
    [Cerr ("[INFO  ][RPC         ][Thu Jan  1 00:00:00 1970][Thread id = 140213]    hi"
           +:+ endl)] /\
  StderrLogger_Write example_env (StderrLogger_set_show_component false StderrLogger_ctor) m =
    [Cerr ("[INFO  ][Thu Jan  1 00:00:00 1970]    hi" +:+ endl)].
Proof. repeat split. Qed.


(** ** Copying and freeing forwarded records *)

Section CopyFree.

Variables (al : Allocator) (h : heap).

Lemma CopyLogData_null :
  CForwardingLogger_CopyLogData al None h = Some (None, h).
Proof. reflexivity. Qed.

Lemma FreeLogData_null :
  CForwardingLogger_FreeLogData None h = Some (tt, h).
Proof. reflexivity. Qed.

(** When [malloc] fails the result is null and memory is untouched. *)
Lemma CopyLogData_malloc_failure (o : addr) :
  malloc (malloc_result al) (BLogData (malloc_junk al)) h = Some (None, h) ->
  CForwardingLogger_CopyLogData al (Some o) h = Some (None, h).
Proof.
  intros Hm. unfold CForwardingLogger_CopyLogData, bind. rewrite Hm. reflexivity.
Qed.

Variables (o s c q : addr) (d : LogData) (txt : string).

Hypothesis Horig : h !! o = Some (BLogData d).
Hypothesis Hmsg : msg d = Some s.
Hypothesis Htxt : h !! s = Some (BChars txt).
Hypothesis Hmalloc : malloc_result al = Some c.
Hypothesis Hc_free : h !! c = None.
Hypothesis Hstrdup : strdup_result al = Some q.
Hypothesis Hq_free : h !! q = None.
Hypothesis Hqc : q <> c.

(** A record with a text, both allocations succeeding: the copy has the
    original's level and component and a duplicate of its text. *)
Lemma CopyLogData_deep_copy :
  CForwardingLogger_CopyLogData al (Some o) h =
  Some (Some c,
        <[c := BLogData {| msg := Some q; level := level d; component := component d |}]>
          (<[q := BChars txt]> h)).
Proof.
  assert (o <> c) by congruence.
  assert (s <> c) by congruence.
  unfold CForwardingLogger_CopyLogData, bind, malloc, set_level, set_component,
    set_msg, strdup, bind, load_LogData, store_LogData, load_cstr, ret.
  rewrite Hmalloc, Hc_free.
  simplify_map_eq. rewrite Hmsg. simplify_map_eq.
  rewrite Hstrdup. simplify_map_eq.
  do 2 f_equal.
  apply map_eq. intros i.
  destruct (decide (i = c)) as [->|Hic]; [by simplify_map_eq|].
  destruct (decide (i = q)) as [->|Hiq]; by simplify_map_eq.
Qed.

(** X25.  Freeing that copy gives back the memory there was before the
    copy: the original record and its text are as they were, and neither
    the copy nor its text is left behind. *)
Lemma copy_then_free_restores :
  copy_then_free al (Some o) h = Some (tt, h).
Proof.
  unfold copy_then_free, bind. rewrite CopyLogData_deep_copy.
  unfold CForwardingLogger_FreeLogData, bind, load_LogData, store_LogData, free, ret.
  simplify_map_eq.
  do 2 f_equal.
  apply map_eq. intros i.
  destruct (decide (i = c)) as [->|Hic]; [by simplify_map_eq|].
  destruct (decide (i = q)) as [->|Hiq]; by simplify_map_eq.
Qed.

End CopyFree.

(** A record without text: the copy's [msg] field is never written, so it
    keeps what [malloc] left there. *)
Lemma CopyLogData_null_text (al : Allocator) (h : heap) (o c : addr) (d : LogData) :
  h !! o = Some (BLogData d) ->
  msg d = None ->
  malloc_result al = Some c ->
  h !! c = None ->
  CForwardingLogger_CopyLogData al (Some o) h =
  Some (Some c,
        <[c := BLogData {| msg := msg (malloc_junk al);
                           level := level d; component := component d |}]> h).
Proof.
  intros Horig Hmsg Hmalloc Hfree.
  assert (o <> c) by congruence.
  unfold CForwardingLogger_CopyLogData, bind, malloc, set_level, set_component,
    bind, load_LogData, store_LogData, ret.
  rewrite Hmalloc, Hfree. simplify_map_eq. rewrite Hmsg.
  do 2 f_equal. rewrite !insert_insert_eq. reflexivity.
Qed.

(** C6, at the failing inputs.  For a record without text, [CopyLogData]
    returns a copy whose [msg] field is the stale pointer found in the
    fresh memory, not null as in the original.  For a record with text,
    when the allocation inside [strdup] fails, [CopyLogData] returns a
    non-null record whose text is null. *)
Theorem CopyLogData_incomplete_copy :
  CForwardingLogger_CopyLogData (stale_allocator (Some 1%positive)) (Some 1%positive)
      textless_heap =
    Some (Some 2%positive,
          <[ 2%positive := BLogData {| msg := Some 1%positive; level := 3; component := 2 |} ]>
            textless_heap) /\
  CForwardingLogger_CopyLogData (stale_allocator None) (Some 1%positive) text_heap =
    Some (Some 2%positive,
          <[ 2%positive := BLogData {| msg := None; level := 3; component := 2 |} ]>
            text_heap).
Proof. split; reflexivity. Qed.

(** C7, at the failing input.  Copying a record without text and freeing
    the copy frees whatever the stale pointer designates: when that is
    the original record, the original is gone from memory; when it
    designates nothing live, the behaviour is undefined. *)
Theorem copy_then_free_textless_record :
  copy_then_free (stale_allocator (Some 1%positive)) (Some 1%positive) textless_heap =
    Some (tt, ∅) /\
  copy_then_free (stale_allocator (Some 9%positive)) (Some 1%positive) textless_heap =
    None.
Proof. split; reflexivity. Qed.

(** * Instances at concrete inputs *)

Lemma ShouldLog_filter_correct_witness :
  accepts (Logger_base (capturing_sink 3 2)) kError kRPC /\
  forallb (arg_ok example_heap) [ACharPtr (Some 5%positive); AString "full"] = true /\
  exists m,
    worth_reporting_ m = true /\ level_ m = kError /\ component_ m = kRPC /\
    LogMessageObj_shl_chain example_heap [ACharPtr (Some 5%positive); AString "full"]
      (fst (LogMessageObj_ctor kError kRPC (traced_with (Some (capturing_sink 3 2))))) =
      Some m /\
    log_statement example_env example_heap kError kRPC
      (map StepAppend [ACharPtr (Some 5%positive); AString "full"])
      (traced_with (Some (capturing_sink 3 2))) =
    Some {| world := {| logger_impl_ := Some (capturing_sink 3 2);
                        output := [] ++ Logger_Write example_env (capturing_sink 3 2) m |};
            calls := [] ++ [CallShouldLog kError kRPC; CallWrite m] |}.
Proof.
  assert (Hacc : accepts (Logger_base (capturing_sink 3 2)) kError kRPC).
  { split; vm_compute; discriminate. }
  split; [exact Hacc|]. split; [reflexivity|].
  apply (proj1 (proj2 (ShouldLog_filter_correct (Logger_base (capturing_sink 3 2))
                         kError kRPC)
                  (capturing_sink 3 2) example_env example_heap
                  [ACharPtr (Some 5%positive); AString "full"] [] [] eq_refl)).
  - exact Hacc.
  - reflexivity.
Defined.

Lemma suppressed_message_is_inert_witness :
  worth_reporting_ suppressed_message = false /\
  (forall a, exists m',
      LogMessageObj_shl ∅ a suppressed_message = Some m' /\
      msg_buffer_ m' = msg_buffer_ suppressed_message) /\
  (exists m',
      LogMessageObj_shl_chain ∅ [ACharPtr (Some 9%positive); AString "x"; AInt32 5]
        suppressed_message = Some m' /\
      msg_buffer_ m' = msg_buffer_ suppressed_message /\
      LogMessageObj_MsgString m' = "" /\
      forall env t, LogMessageObj_dtor env m' t = t).
Proof.
  split; [reflexivity|].
  apply (suppressed_message_is_inert ∅ [ACharPtr (Some 9%positive); AString "x"; AInt32 5]
           suppressed_message).
  reflexivity.
Defined.

Lemma acceptance_fixed_at_construction_witness :
  forallb (step_ok example_heap) example_steps = true /\
  exists m,
    run_steps example_heap example_steps
      (fst (LogMessageObj_ctor kError kRPC (traced_with (Some (capturing_sink 3 2)))))
      (snd (LogMessageObj_ctor kError kRPC (traced_with (Some (capturing_sink 3 2))))) =
      Some (m, {| world := world_after example_steps
                             (world (traced_with (Some (capturing_sink 3 2))));
                  calls := calls (traced_with (Some (capturing_sink 3 2)))
                           ++ [CallShouldLog kError kRPC] |}) /\
    worth_reporting_ m =
      LogManager_ShouldLog kError kRPC (world (traced_with (Some (capturing_sink 3 2)))) /\
    level_ m = kError /\ component_ m = kRPC /\
    log_statement example_env example_heap kError kRPC example_steps
      (traced_with (Some (capturing_sink 3 2))) =
      Some (if LogManager_ShouldLog kError kRPC
                 (world (traced_with (Some (capturing_sink 3 2))))
            then {| world := LogManager_Write example_env m
                               (world_after example_steps
                                  (world (traced_with (Some (capturing_sink 3 2)))));
                    calls := calls (traced_with (Some (capturing_sink 3 2)))
                             ++ [CallShouldLog kError kRPC; CallWrite m] |}
            else {| world := world_after example_steps
                               (world (traced_with (Some (capturing_sink 3 2))));
                    calls := calls (traced_with (Some (capturing_sink 3 2)))
                             ++ [CallShouldLog kError kRPC] |}).
Proof.
  split; [reflexivity|].
  apply (acceptance_fixed_at_construction example_env example_heap kError kRPC
           example_steps (traced_with (Some (capturing_sink 3 2)))).
  reflexivity.
Defined.

Lemma no_sink_is_a_noop_witness :
  logger_impl_ (world (traced_with None)) = None /\
  (forall l c, LogManager_ShouldLog l c (world (traced_with None)) = false) /\
  (forall env m, LogManager_Write env m (world (traced_with None)) =
                 world (traced_with None)) /\
  (forall c, LogManager_EnableLogForComponent c (world (traced_with None)) =
             world (traced_with None)) /\
  (forall c, LogManager_DisableLogForComponent c (world (traced_with None)) =
             world (traced_with None)) /\
  (forall l, LogManager_SetLogLevel l (world (traced_with None)) =
             world (traced_with None)) /\
  (forall env h l c args cs,
      log_statement env h l c (map StepAppend args)
        {| world := world (traced_with None); calls := cs |} =
      Some {| world := world (traced_with None); calls := cs ++ [CallShouldLog l c] |}).
Proof.
  split; [reflexivity|].
  apply (no_sink_is_a_noop (world (traced_with None))).
  reflexivity.
Defined.

(** * Further properties of the code *)

(** ** Bits of the component mask *)

Lemma component_val_pow2 (c : LogSourceComponent) :
  LogSourceComponent_val c = 2 ^ component_bit c.
Proof. destruct c; reflexivity. Qed.

Lemma component_bit_range (c : LogSourceComponent) : 0 <= component_bit c < 32.
Proof. destruct c; simpl; lia. Qed.

Lemma component_bit_inj (c c' : LogSourceComponent) :
  component_bit c = component_bit c' -> c = c'.
Proof. destruct c, c'; simpl; intros H; try reflexivity; discriminate. Qed.

Lemma u32_testbit (a n : Z) :
  Z.testbit (u32 a) n = (n <? 32) && Z.testbit a n.
Proof. unfold u32. apply Z.testbit_mod_pow2. lia. Qed.

Lemma land_pow2_eqb (k x : Z) :
  0 <= k -> (Z.land (2 ^ k) x =? 0) = negb (Z.testbit x k).
Proof.
  intros Hk. destruct (Z.testbit x k) eqn:Hbit; simpl.
  - apply Z.eqb_neq. intros Hz.
    assert (Hk' : Z.testbit (Z.land (2 ^ k) x) k = true).
    { rewrite Z.land_spec, Z.pow2_bits_eqb, Z.eqb_refl, Hbit by exact Hk. reflexivity. }
    rewrite Hz, Z.bits_0 in Hk'. discriminate.
  - apply Z.eqb_eq. apply Z.bits_inj'. intros n Hn.
    rewrite Z.land_spec, Z.pow2_bits_eqb, Z.bits_0 by exact Hk.
    destruct (Z.eqb_spec k n) as [->|]; [rewrite Hbit|]; reflexivity.
Qed.

(** [ShouldLog] reads one bit of the mask. *)
Lemma ShouldLog_testbit (self : LoggerInterface) (l : LogLevel) (c : LogSourceComponent) :
  LoggerInterface_ShouldLog self l c =
  negb (LogLevel_val l <? level_threshold_ self) &&
  Z.testbit (component_mask_ self) (component_bit c).
Proof.
  unfold LoggerInterface_ShouldLog.
  rewrite component_val_pow2, land_pow2_eqb by apply component_bit_range.
  destruct (LogLevel_val l <? level_threshold_ self); simpl; [reflexivity|].
  destruct (Z.testbit (component_mask_ self) (component_bit c)); reflexivity.
Qed.

Lemma Enable_testbit (c : LogSourceComponent) (self : LoggerInterface) (n : Z) :
  0 <= n ->
  Z.testbit (component_mask_ (LoggerInterface_EnableLoggingForComponent c self)) n =
  (n <? 32) && (Z.testbit (component_mask_ self) n || (component_bit c =? n)).
Proof.
  intros Hn. simpl. rewrite u32_testbit, Z.lor_spec, component_val_pow2.
  rewrite Z.pow2_bits_eqb by apply component_bit_range. reflexivity.
Qed.

Lemma Disable_testbit (c : LogSourceComponent) (self : LoggerInterface) (n : Z) :
  0 <= n ->
  Z.testbit (component_mask_ (LoggerInterface_DisableLoggingForComponent c self)) n =
  (n <? 32) && (Z.testbit (component_mask_ self) n && negb (component_bit c =? n)).
Proof.
  intros Hn. simpl. rewrite u32_testbit, Z.land_spec, u32_testbit.
  rewrite Z.lnot_spec, component_val_pow2 by exact Hn.
  rewrite Z.pow2_bits_eqb by apply component_bit_range.
  destruct (n <? 32), (Z.testbit (component_mask_ self) n), (component_bit c =? n);
    reflexivity.
Qed.

Lemma component_bit_eqb (c c' : LogSourceComponent) :
  (component_bit c =? component_bit c') = bool_decide (c' = c).
Proof.
  destruct (Z.eqb_spec (component_bit c) (component_bit c')) as [He|Hne].
  - apply component_bit_inj in He. subst. symmetry. apply bool_decide_eq_true_2. reflexivity.
  - symmetry. apply bool_decide_eq_false_2. intros ->. apply Hne. reflexivity.
Qed.

Lemma component_bit_ltb (c : LogSourceComponent) : (component_bit c <? 32) = true.
Proof. destruct c; reflexivity. Qed.

(** ** Enabling and disabling one component *)

(** X1.  After [EnableLoggingForComponent(c)] the filter passes component
    [c] at every level that reaches the threshold, and decides every
    other component as before. *)
Theorem Enable_effect_on_ShouldLog :
  forall (self : LoggerInterface) (c c' : LogSourceComponent) (l : LogLevel),
    LoggerInterface_ShouldLog (LoggerInterface_EnableLoggingForComponent c self) l c' =
    if decide (c' = c) then negb (LogLevel_val l <? level_threshold_ self)
    else LoggerInterface_ShouldLog self l c'.
Proof.
  intros self c c' l. rewrite !ShouldLog_testbit.
  rewrite Enable_testbit by apply component_bit_range.
  rewrite component_bit_ltb, component_bit_eqb. simpl.
  destruct (decide (c' = c)) as [Heq|Hne].
  - rewrite bool_decide_eq_true_2 by exact Heq.
    rewrite orb_true_r, andb_true_r. reflexivity.
  - rewrite bool_decide_eq_false_2 by exact Hne.
    rewrite orb_false_r. reflexivity.
Qed.

(** X2.  After [DisableLoggingForComponent(c)] the filter rejects
    component [c] at every level, and decides every other component as
    before. *)
Theorem Disable_effect_on_ShouldLog :
  forall (self : LoggerInterface) (c c' : LogSourceComponent) (l : LogLevel),
    LoggerInterface_ShouldLog (LoggerInterface_DisableLoggingForComponent c self) l c' =
    if decide (c' = c) then false
    else LoggerInterface_ShouldLog self l c'.
Proof.
  intros self c c' l. rewrite !ShouldLog_testbit.
  rewrite Disable_testbit by apply component_bit_range.
  rewrite component_bit_ltb, component_bit_eqb. simpl.
  destruct (decide (c' = c)) as [Heq|Hne].
  - rewrite bool_decide_eq_true_2 by exact Heq. simpl.
    rewrite !andb_false_r. reflexivity.
  - rewrite bool_decide_eq_false_2 by exact Hne. simpl.
    rewrite andb_true_r. reflexivity.
Qed.

Lemma LoggerInterface_mask_ext (a b : LoggerInterface) :
  level_threshold_ a = level_threshold_ b ->
  (forall n, 0 <= n -> Z.testbit (component_mask_ a) n = Z.testbit (component_mask_ b) n) ->
  a = b.
Proof.
  destruct a as [ma ta], b as [mb tb]. simpl. intros -> Hbits.
  f_equal. apply Z.bits_inj'. exact Hbits.
Qed.

Ltac mask_bits :=
  apply LoggerInterface_mask_ext; [reflexivity|];
  let n := fresh "n" in let Hn := fresh "Hn" in
  intros n Hn;
  repeat first [ rewrite Enable_testbit by exact Hn
               | rewrite Disable_testbit by exact Hn ].

(** X3.  Enabling or disabling a component twice is the same as doing it
    once, and of an enable and a disable of the same component the last
    one wins; the earlier call leaves no trace in the filter state. *)
Theorem Enable_Disable_last_wins :
  forall (self : LoggerInterface) (c : LogSourceComponent),
    LoggerInterface_EnableLoggingForComponent c
      (LoggerInterface_EnableLoggingForComponent c self) =
      LoggerInterface_EnableLoggingForComponent c self /\
    LoggerInterface_DisableLoggingForComponent c
      (LoggerInterface_DisableLoggingForComponent c self) =
      LoggerInterface_DisableLoggingForComponent c self /\
    LoggerInterface_DisableLoggingForComponent c
      (LoggerInterface_EnableLoggingForComponent c self) =
      LoggerInterface_DisableLoggingForComponent c self /\
    LoggerInterface_EnableLoggingForComponent c
      (LoggerInterface_DisableLoggingForComponent c self) =
      LoggerInterface_EnableLoggingForComponent c self.
Proof.
  intros self c. repeat split; mask_bits;
    destruct (n <? 32), (Z.testbit (component_mask_ self) n), (component_bit c =? n);
    reflexivity.
Qed.

(** X4.  Calls for different components commute: the filter state after
    a run of enables and disables of distinct components does not depend
    on their order. *)
Theorem Enable_Disable_commute :
  forall (self : LoggerInterface) (c1 c2 : LogSourceComponent),
    LoggerInterface_EnableLoggingForComponent c1
      (LoggerInterface_EnableLoggingForComponent c2 self) =
      LoggerInterface_EnableLoggingForComponent c2
        (LoggerInterface_EnableLoggingForComponent c1 self) /\
    LoggerInterface_DisableLoggingForComponent c1
      (LoggerInterface_DisableLoggingForComponent c2 self) =
      LoggerInterface_DisableLoggingForComponent c2
        (LoggerInterface_DisableLoggingForComponent c1 self) /\
    (c1 <> c2 ->
     LoggerInterface_EnableLoggingForComponent c1
       (LoggerInterface_DisableLoggingForComponent c2 self) =
       LoggerInterface_DisableLoggingForComponent c2
         (LoggerInterface_EnableLoggingForComponent c1 self)).
Proof.
  intros self c1 c2. repeat split; [| |intros Hne]; mask_bits.
  1,2: destruct (n <? 32), (Z.testbit (component_mask_ self) n),
         (component_bit c1 =? n), (component_bit c2 =? n); reflexivity.
  destruct (Z.eqb_spec (component_bit c1) n) as [H1|H1],
           (Z.eqb_spec (component_bit c2) n) as [H2|H2].
  - exfalso. apply Hne. apply component_bit_inj. congruence.
  - destruct (n <? 32), (Z.testbit (component_mask_ self) n); reflexivity.
  - destruct (n <? 32), (Z.testbit (component_mask_ self) n); reflexivity.
  - destruct (n <? 32), (Z.testbit (component_mask_ self) n); reflexivity.
Qed.

(** ** Levels *)

(** X5.  The filter is monotone in the level: a component that passes at
    one level passes at every higher level, whatever the filter state. *)
Theorem ShouldLog_monotone_in_level :
  forall (self : LoggerInterface) (c : LogSourceComponent) (l l' : LogLevel),
    LoggerInterface_ShouldLog self l c = true ->
    LogLevel_val l <= LogLevel_val l' ->
    LoggerInterface_ShouldLog self l' c = true.
Proof.
  intros self c l l' H Hle. rewrite ShouldLog_testbit in *.
  apply andb_prop in H as [Hl Hbit]. rewrite Hbit, andb_true_r.
  apply negb_true_iff in Hl. apply negb_true_iff.
  apply Z.ltb_ge in Hl. apply Z.ltb_ge. lia.
Qed.

(** ** The manager's reconfigurations *)

Lemma Logger_base_with_base (b : LoggerInterface) (lg : Logger) :
  Logger_base (Logger_with_base b lg) = b.
Proof. destruct lg; reflexivity. Qed.

Lemma Logger_Write_with_base (env : Env) (b : LoggerInterface) (lg : Logger)
    (m : LogMessageObj) :
  Logger_Write env (Logger_with_base b lg) m = Logger_Write env lg m.
Proof. destruct lg; reflexivity. Qed.

Lemma LogManager_ShouldLog_Disable (c c' : LogSourceComponent) (l : LogLevel) (w : World) :
  LogManager_ShouldLog l c' (LogManager_DisableLogForComponent c w) =
  if decide (c' = c) then false else LogManager_ShouldLog l c' w.
Proof.
  unfold LogManager_ShouldLog, LogManager_DisableLogForComponent.
  destruct (logger_impl_ w) as [lg|] eqn:Himpl; simpl.
  - rewrite Logger_base_with_base, !ShouldLog_testbit.
    rewrite Disable_testbit by apply component_bit_range.
    rewrite component_bit_ltb, component_bit_eqb. simpl.
    destruct (decide (c' = c)) as [Heq|Hne].
    + rewrite bool_decide_eq_true_2 by exact Heq. simpl.
      rewrite !andb_false_r. reflexivity.
    + rewrite bool_decide_eq_false_2 by exact Hne. simpl.
      rewrite andb_true_r. reflexivity.
  - rewrite Himpl. destruct (decide (c' = c)); reflexivity.
Qed.

Lemma LogManager_ShouldLog_Enable (c c' : LogSourceComponent) (l : LogLevel) (w : World)
    (lg : Logger) :
  logger_impl_ w = Some lg ->
  LogManager_ShouldLog l c' (LogManager_EnableLogForComponent c w) =
  if decide (c' = c) then negb (LogLevel_val l <? level_threshold_ (Logger_base lg))
  else LogManager_ShouldLog l c' w.
Proof.
  intros Himpl. unfold LogManager_ShouldLog, LogManager_EnableLogForComponent.
  rewrite Himpl. simpl.
  rewrite Logger_base_with_base, !ShouldLog_testbit.
  rewrite Enable_testbit by apply component_bit_range.
  rewrite component_bit_ltb, component_bit_eqb. simpl.
  destruct (decide (c' = c)) as [Heq|Hne].
  - rewrite bool_decide_eq_true_2 by exact Heq.
    rewrite orb_true_r, andb_true_r. reflexivity.
  - rewrite bool_decide_eq_false_2 by exact Hne.
    rewrite orb_false_r. reflexivity.
Qed.

(** Enabling and disabling keep the sink installed, its threshold, what
    it writes, and the output so far. *)
Lemma LogManager_Disable_frame (c : LogSourceComponent) (w : World) (lg : Logger) :
  logger_impl_ w = Some lg ->
  exists lg',
    logger_impl_ (LogManager_DisableLogForComponent c w) = Some lg' /\
    level_threshold_ (Logger_base lg') = level_threshold_ (Logger_base lg) /\
    (forall env m, Logger_Write env lg' m = Logger_Write env lg m) /\
    output (LogManager_DisableLogForComponent c w) = output w.
Proof.
  intros Himpl. unfold LogManager_DisableLogForComponent. rewrite Himpl.
  eexists. split; [reflexivity|]. rewrite Logger_base_with_base.
  repeat split. intros env m. apply Logger_Write_with_base.
Qed.

Lemma disable_all_components_frame (w : World) (lg : Logger) :
  logger_impl_ w = Some lg ->
  exists lg',
    logger_impl_ (disable_all_components w) = Some lg' /\
    level_threshold_ (Logger_base lg') = level_threshold_ (Logger_base lg) /\
    (forall env m, Logger_Write env lg' m = Logger_Write env lg m) /\
    output (disable_all_components w) = output w.
Proof.
  intros Himpl. unfold disable_all_components, all_components. simpl.
  destruct (LogManager_Disable_frame kUnknown _ _ Himpl) as (lg1 & H1 & T1 & W1 & O1).
  destruct (LogManager_Disable_frame kRPC _ _ H1) as (lg2 & H2 & T2 & W2 & O2).
  destruct (LogManager_Disable_frame kBlockReader _ _ H2) as (lg3 & H3 & T3 & W3 & O3).
  destruct (LogManager_Disable_frame kFileHandle _ _ H3) as (lg4 & H4 & T4 & W4 & O4).
  destruct (LogManager_Disable_frame kFileSystem _ _ H4) as (lg5 & H5 & T5 & W5 & O5).
  exists lg5. split; [exact H5|]. split; [congruence|]. split; [|congruence].
  intros env m. rewrite W5, W4, W3, W2, W1. reflexivity.
Qed.

Lemma disable_all_components_rejects (w : World) (l : LogLevel) (c : LogSourceComponent) :
  LogManager_ShouldLog l c (disable_all_components w) = false.
Proof.
  unfold disable_all_components, all_components. simpl.
  rewrite !LogManager_ShouldLog_Disable.
  destruct c; reflexivity.
Qed.

(** X6.  The test MaskAll: after [DisableLogForComponent] on all five
    components, whatever sink is installed and whatever its state was,
    [ShouldLog] is false for every level and component, nothing was
    written by the calls, and a log statement changes nothing. *)
Theorem MaskAll_suppresses_everything :
  forall (w : World),
    (forall l c, LogManager_ShouldLog l c (disable_all_components w) = false) /\
    output (disable_all_components w) = output w /\
    (forall env h l c args cs,
        log_statement env h l c (map StepAppend args)
          {| world := disable_all_components w; calls := cs |} =
        Some {| world := disable_all_components w; calls := cs ++ [CallShouldLog l c] |}).
Proof.
  intros w. split; [intros l c; apply disable_all_components_rejects|]. split.
  - destruct (logger_impl_ w) as [lg|] eqn:Himpl.
    + destruct (disable_all_components_frame w lg Himpl) as (lg' & _ & _ & _ & Hout).
      exact Hout.
    + unfold disable_all_components, all_components, LogManager_DisableLogForComponent.
      simpl. rewrite !Himpl. reflexivity.
  - intros env h l c args cs. unfold log_statement. simpl.
    rewrite run_steps_suppressed by (simpl; apply disable_all_components_rejects).
    simpl. rewrite world_after_appends. unfold LogMessageObj_dtor. simpl.
    rewrite disable_all_components_rejects. reflexivity.
Qed.

(** X7.  The test MaskOne: with a sink installed, disabling all five
    components and enabling one of them lets through exactly the
    messages of that component whose level reaches the sink's
    threshold. *)
Theorem MaskOne_isolates_component :
  forall (w : World) (lg : Logger) (c0 : LogSourceComponent),
    logger_impl_ w = Some lg ->
    forall l c,
      LogManager_ShouldLog l c
        (LogManager_EnableLogForComponent c0 (disable_all_components w)) =
      bool_decide (c = c0) && negb (LogLevel_val l <? level_threshold_ (Logger_base lg)).
Proof.
  intros w lg c0 Himpl l c.
  destruct (disable_all_components_frame w lg Himpl) as (lg' & Himpl' & Hthr & _ & _).
  rewrite (LogManager_ShouldLog_Enable c0 c l _ lg' Himpl'), Hthr.
  destruct (decide (c = c0)) as [Heq|Hne].
  - rewrite bool_decide_eq_true_2 by exact Heq. reflexivity.
  - rewrite bool_decide_eq_false_2 by exact Hne.
    apply disable_all_components_rejects.
Qed.

(** X8.  [LogManager::SetLogLevel(L)] with a sink installed: every call
    puts the line SETLOGLEVEL_CALLED_ on [std::cerr], whatever the kind
    of sink; afterwards a message passes exactly when its level is at
    least [L] and its component's bit was set in the mask, which the call
    leaves alone. *)
Theorem SetLogLevel_effect :
  forall (w : World) (lg : Logger) (L : LogLevel),
    logger_impl_ w = Some lg ->
    output (LogManager_SetLogLevel L w) =
      output w ++ [Cerr ("SETLOGLEVEL_CALLED_" +:+ endl)] /\
    forall l c,
      LogManager_ShouldLog l c (LogManager_SetLogLevel L w) =
      (LogLevel_val L <=? LogLevel_val l) &&
      Z.testbit (component_mask_ (Logger_base lg)) (component_bit c).
Proof.
  intros w lg L Himpl. unfold LogManager_SetLogLevel, LogManager_ShouldLog.
  rewrite Himpl. simpl. split; [reflexivity|].
  intros l c. rewrite Logger_base_with_base, ShouldLog_testbit. simpl.
  rewrite Z.leb_antisym. reflexivity.
Qed.

Lemma filter_op_frame (op : ManagerOp) (w : World) :
  is_filter_op op = true ->
  (forall env m,
      option_map (fun lg => Logger_Write env lg m) (logger_impl_ (LogManager_apply op w)) =
      option_map (fun lg => Logger_Write env lg m) (logger_impl_ w)) /\
  exists extra,
    output (LogManager_apply op w) = output w ++ extra /\
    Forall (fun o => o = Cerr ("SETLOGLEVEL_CALLED_" +:+ endl)) extra.
Proof.
  destruct op as [c|c|L|impl]; simpl; intros Hop; try discriminate.
  - unfold LogManager_EnableLogForComponent.
    destruct (logger_impl_ w) as [lg|] eqn:Himpl; simpl.
    + split; [intros env m; now rewrite Logger_Write_with_base|].
      exists []. rewrite app_nil_r. split; [reflexivity | constructor].
    + rewrite Himpl. split; [reflexivity|].
      exists []. rewrite app_nil_r. split; [reflexivity | constructor].
  - unfold LogManager_DisableLogForComponent.
    destruct (logger_impl_ w) as [lg|] eqn:Himpl; simpl.
    + split; [intros env m; now rewrite Logger_Write_with_base|].
      exists []. rewrite app_nil_r. split; [reflexivity | constructor].
    + rewrite Himpl. split; [reflexivity|].
      exists []. rewrite app_nil_r. split; [reflexivity | constructor].
  - unfold LogManager_SetLogLevel.
    destruct (logger_impl_ w) as [lg|] eqn:Himpl; simpl.
    + split; [intros env m; now rewrite Logger_Write_with_base|].
      eexists. split; [reflexivity|]. repeat constructor.
    + rewrite Himpl. split; [reflexivity|].
      exists []. rewrite app_nil_r. split; [reflexivity | constructor].
Qed.

(** X9.  Reconfiguring the filter through the manager, any number of
    times, never removes or replaces the sink and never changes what the
    sink writes for a message (the console toggles and the callback are
    kept); the only output of the calls themselves is the line that
    [SetLogLevel] prints. *)
Theorem filter_ops_keep_the_sink :
  forall (ops : list ManagerOp) (w : World),
    forallb is_filter_op ops = true ->
    (forall env m,
        option_map (fun lg => Logger_Write env lg m)
          (logger_impl_ (LogManager_apply_all ops w)) =
        option_map (fun lg => Logger_Write env lg m) (logger_impl_ w)) /\
    exists extra,
      output (LogManager_apply_all ops w) = output w ++ extra /\
      Forall (fun o => o = Cerr ("SETLOGLEVEL_CALLED_" +:+ endl)) extra.
Proof.
  intros ops. unfold LogManager_apply_all.
  induction ops as [|op ops IH]; intros w Hops; simpl in *.
  - split; [reflexivity|]. exists []. rewrite app_nil_r. split; [reflexivity | constructor].
  - apply andb_prop in Hops as [Hop Hrest].
    destruct (filter_op_frame op w Hop) as (Hw1 & e1 & Ho1 & Hf1).
    destruct (IH (LogManager_apply op w) Hrest) as (Hw2 & e2 & Ho2 & Hf2).
    split.
    + intros env m. rewrite Hw2. apply Hw1.
    + exists (e1 ++ e2). rewrite Ho2, Ho1, <- app_assoc. split; [reflexivity|].
      apply Forall_app. split; assumption.
Qed.

(** ** What a chain of appends puts in the buffer *)

Lemma append_nil_r (s : string) : s +:+ "" = s.
Proof. induction s as [|a s IH]; [reflexivity|]. rewrite append_cons, IH. reflexivity. Qed.

Lemma buffer_put_nil (m : LogMessageObj) : buffer_put "" m = m.
Proof. destruct m. unfold buffer_put. simpl. rewrite append_nil_r. reflexivity. Qed.

Lemma buffer_put_append (s r : string) (m : LogMessageObj) :
  buffer_put r (buffer_put s m) = buffer_put (s +:+ r) m.
Proof. unfold buffer_put. simpl. rewrite append_assoc. reflexivity. Qed.

Lemma shl_renders (h : heap) (a : AppendArg) (m : LogMessageObj) :
  worth_reporting_ m = true ->
  LogMessageObj_shl h a m = option_map (fun s => buffer_put s m) (render_arg h a).
Proof.
  intros Hw.
  destruct a as [[p|]| s | [p|] | [|] | | | | | p]; simpl;
    unfold LogMessageObj_shl_cstr, LogMessageObj_shl_string,
      LogMessageObj_shl_string_ptr, LogMessageObj_shl_bool,
      LogMessageObj_shl_int32, LogMessageObj_shl_uint32,
      LogMessageObj_shl_int64, LogMessageObj_shl_uint64,
      LogMessageObj_shl_void_ptr, load_cstr;
    rewrite ?Hw, ?buffer_put_nil; try reflexivity.
  destruct (h !! p) as [[s| |]|]; reflexivity.
Qed.



(** ** A log statement in closed form *)

Lemma run_steps_renders (h : heap) (steps : list Step) (m : LogMessageObj) (t : Traced) :
  worth_reporting_ m = true ->
  run_steps h steps m t =
  match render_args h (step_args steps) with
  | Some s =>
      Some (buffer_put s m,
            {| world := world_after steps (world t); calls := calls t |})
  | None => None
  end.
Proof.
  revert m t. induction steps as [|[a|op] steps IH]; intros m t Hw; simpl.
  - rewrite buffer_put_nil. destruct t; reflexivity.
  - rewrite shl_renders by exact Hw.
    destruct (render_arg h a) as [s|]; simpl; [|reflexivity].
    rewrite IH by exact Hw.
    destruct (render_args h (step_args steps)) as [r|]; [|reflexivity].
    rewrite buffer_put_append. reflexivity.
  - rewrite IH by exact Hw. reflexivity.
Qed.

Lemma step_args_appends (args : list AppendArg) : step_args (map StepAppend args) = args.
Proof. induction args as [|a args IH]; simpl; [reflexivity | now rewrite IH]. Qed.

Lemma step_args_app (s1 s2 : list Step) : step_args (s1 ++ s2) = step_args s1 ++ step_args s2.
Proof.
  induction s1 as [|[a|op] s1 IH]; simpl; [reflexivity | now rewrite IH | exact IH].
Qed.

Lemma world_after_app (s1 s2 : list Step) (w : World) :
  world_after (s1 ++ s2) w = world_after s2 (world_after s1 w).
Proof.
  revert w. induction s1 as [|[a|op] s1 IH]; intros w; simpl; [reflexivity | apply IH | apply IH].
Qed.

Lemma log_statement_closed_form (env : Env) (h : heap) (l : LogLevel)
    (c : LogSourceComponent) (steps : list Step) (t : Traced) :
  log_statement env h l c steps t =
  if LogManager_ShouldLog l c (world t)
  then match render_args h (step_args steps) with
       | Some s =>
           Some {| world := LogManager_Write env (accepted_message l c s)
                              (world_after steps (world t));
                   calls := calls t ++ [CallShouldLog l c;
                                        CallWrite (accepted_message l c s)] |}
       | None => None
       end
  else Some {| world := world_after steps (world t);
               calls := calls t ++ [CallShouldLog l c] |}.
Proof.
  unfold log_statement. simpl.
  destruct (LogManager_ShouldLog l c (world t)) eqn:Hs.
  - rewrite run_steps_renders by reflexivity.
    destruct (render_args h (step_args steps)) as [s|]; [|reflexivity].
    unfold LogMessageObj_dtor, buffer_put, accepted_message. simpl.
    rewrite <- app_assoc. reflexivity.
  - rewrite run_steps_suppressed by reflexivity. unfold LogMessageObj_dtor. simpl.
    reflexivity.
Qed.


(** X12.  A sink installed while a message is in flight.  A message
    accepted by the old sink is written by the new one, once, whatever
    the new sink's own threshold and mask (its [Write] never consults
    them); a message rejected by the old sink produces nothing, even if
    the new sink would accept everything; when the sink is removed the
    accepted message is dropped silently. *)
Theorem sink_replaced_in_flight :
  forall (env : Env) (h : heap) (l : LogLevel) (c : LogSourceComponent)
         (lgA : Logger) (implB : option Logger) (args1 args2 : list AppendArg)
         (s : string) (out : list Output) (cs : list Call),
    render_args h (args1 ++ args2) = Some s ->
    let steps := map StepAppend args1 ++
                 StepManager (OpSetLoggerImplementation implB) :: map StepAppend args2 in
    let t := {| world := {| logger_impl_ := Some lgA; output := out |}; calls := cs |} in
    exists t',
      log_statement env h l c steps t = Some t' /\
      logger_impl_ (world t') = implB /\
      output (world t') =
        out ++ (if LoggerInterface_ShouldLog (Logger_base lgA) l c
                then match implB with
                     | Some lgB => Logger_Write env lgB (accepted_message l c s)
                     | None => []
                     end
                else []) /\
      (forall lgB b, Logger_Write env (Logger_with_base b lgB) (accepted_message l c s) =
                     Logger_Write env lgB (accepted_message l c s)).
Proof.
  intros env h l c lgA implB args1 args2 s out cs Hren steps t.
  rewrite log_statement_closed_form. subst steps.
  rewrite step_args_app. simpl. rewrite !step_args_appends, Hren.
  rewrite world_after_app. simpl. rewrite !world_after_appends.
  unfold LogManager_ShouldLog. simpl.
  destruct (LoggerInterface_ShouldLog (Logger_base lgA) l c).
  - eexists. split; [reflexivity|].
    unfold LogManager_Write, LogManager_SetLoggerImplementation. simpl.
    destruct implB as [lgB|]; simpl.
    + repeat split. intros lgB' b. apply Logger_Write_with_base.
    + rewrite app_nil_r. repeat split. intros lgB' b. apply Logger_Write_with_base.
  - eexists. split; [reflexivity|]. simpl. rewrite app_nil_r.
    repeat split. intros lgB' b. apply Logger_Write_with_base.
Qed.

(** ** The forwarding sink *)

(** X13.  A forwarding sink whose callback was cleared with
    [SetCallback(NULL)] (or never set) accepts messages as its filter
    says but forwards nothing: a log statement leaves the sink and the
    output as they were, whether the message was accepted or not. *)
Theorem cleared_callback_forwards_nothing :
  forall (env : Env) (h : heap) (l : LogLevel) (c : LogSourceComponent)
         (cf : CForwardingLogger) (args : list AppendArg) (s : string)
         (out : list Output) (cs : list Call),
    render_args h args = Some s ->
    let lg := IsCForwardingLogger (CForwardingLogger_SetCallback None cf) in
    exists t',
      log_statement env h l c (map StepAppend args)
        {| world := {| logger_impl_ := Some lg; output := out |}; calls := cs |} = Some t' /\
      world t' = {| logger_impl_ := Some lg; output := out |} /\
      LogManager_ShouldLog l c (world t') = LoggerInterface_ShouldLog (cfwd_base cf) l c.
Proof.
  intros env h l c cf args s out cs Hren lg.
  rewrite log_statement_closed_form, step_args_appends, Hren, world_after_appends.
  unfold LogManager_ShouldLog. simpl.
  destruct (LoggerInterface_ShouldLog (cfwd_base cf) l c) eqn:Hs.
  - eexists. split; [reflexivity|]. unfold LogManager_Write. simpl.
    rewrite app_nil_r. split; [reflexivity | exact Hs].
  - eexists. split; [reflexivity|]. simpl. split; [reflexivity | exact Hs].
Qed.

Lemma c_str_no_nul (s : string) : has_nul (c_str s) = false.
Proof.
  induction s as [|a s IH]; simpl; [reflexivity|].
  destruct (Ascii.eqb a "000"%char) eqn:Ha; simpl; [reflexivity|].
  rewrite Ha. exact IH.
Qed.

Lemma c_str_id (s : string) : has_nul s = false -> c_str s = s.
Proof.
  induction s as [|a s IH]; simpl; [reflexivity|].
  destruct (Ascii.eqb a "000"%char); simpl; [discriminate|].
  intros H. rewrite IH by exact H. reflexivity.
Qed.

Lemma c_str_cut (s1 s2 : string) :
  has_nul s1 = false -> c_str (s1 +:+ String "000"%char s2) = s1.
Proof.
  induction s1 as [|a s1 IH]; intros H.
  - reflexivity.
  - simpl in H. apply orb_false_elim in H as [Ha H].
    rewrite append_cons. simpl. rewrite Ha, IH by exact H. reflexivity.
Qed.

(** X14.  Whatever [CForwardingLogger::Write] emits is one call of the
    registered callback, for a message that is worth reporting, with a
    record whose level is one of 0..4, whose component is one of
    1, 2, 4, 8, 16, and whose text holds no NUL; the sink itself writes
    nothing on [std::cerr].  These are the cases the callback of the
    test driver switches on. *)
Theorem forwarded_record_is_well_formed :
  forall (self : CForwardingLogger) (m : LogMessageObj) (o : Output),
    In o (CForwardingLogger_Write self m) ->
    CForwardingLogger_Write self m = [o] /\
    worth_reporting_ m = true /\
    exists fn lv cp txt,
      o = CallbackInvoked fn lv cp txt /\
      callback_ self = Some fn /\
      In lv [0; 1; 2; 3; 4] /\
      In cp [1; 2; 4; 8; 16] /\
      txt = c_str (msg_buffer_ m) /\
      has_nul txt = false.
Proof.
  intros self m o. unfold CForwardingLogger_Write, LogMessageObj_is_worth_reporting,
    LogMessageObj_MsgString.
  destruct (worth_reporting_ m) eqn:Hw; simpl; [|contradiction].
  destruct (callback_ self) as [fn|]; simpl; [|contradiction].
  intros [<-|[]]. split; [reflexivity|]. split; [reflexivity|].
  eexists _, _, _, _. split; [reflexivity|]. split; [reflexivity|].
  split; [destruct (level_ m); simpl; tauto|].
  split; [destruct (component_ m); simpl; tauto|].
  split; [reflexivity | apply c_str_no_nul].
Qed.

(** X15.  The text reaches the callback through [text.c_str()]: a text
    without NUL arrives whole, and a text with a NUL inside, which the
    [const std::string &] overload accepts, arrives cut before its first
    NUL. *)
Theorem forwarded_text_is_cut_at_nul :
  forall (base : LoggerInterface) (fn : addr) (l : LogLevel) (c : LogSourceComponent)
         (s1 s2 : string),
    has_nul s1 = false ->
    let sink := {| cfwd_base := base; callback_ := Some fn |} in
    CForwardingLogger_Write sink (accepted_message l c s1) =
      [CallbackInvoked fn (LogLevel_val l) (LogSourceComponent_val c) s1] /\
    CForwardingLogger_Write sink (accepted_message l c (s1 +:+ String "000"%char s2)) =
      [CallbackInvoked fn (LogLevel_val l) (LogSourceComponent_val c) s1] /\
    LogMessageObj_shl_string (s1 +:+ String "000"%char s2) (accepted_message l c "") =
      accepted_message l c (s1 +:+ String "000"%char s2).
Proof.
  intros base fn l c s1 s2 Hnul sink.
  unfold CForwardingLogger_Write, LogMessageObj_is_worth_reporting,
    LogMessageObj_MsgString. simpl.
  rewrite c_str_id, c_str_cut by exact Hnul. repeat split.
Qed.

(** ** The LogMessage macro *)



(** ** The console line *)



(** X18.  The level and component tags have a fixed width (8 and 14
    characters) and tell the level and the component apart: different
    levels give different tags, and so do different components; no
    enumerator falls outside the tables. *)
Theorem tags_are_fixed_width_and_distinct :
  forall (m1 m2 : LogMessageObj),
    String.length (LogMessageObj_level_string m1) = 8%nat /\
    String.length (LogMessageObj_component_string m1) = 14%nat /\
    (LogMessageObj_level_string m1 = LogMessageObj_level_string m2 ->
     level_ m1 = level_ m2) /\
    (LogMessageObj_component_string m1 = LogMessageObj_component_string m2 ->
     component_ m1 = component_ m2).
Proof.
  intros [w1 l1 c1 b1] [w2 l2 c2 b2].
  unfold LogMessageObj_level_string, LogMessageObj_component_string. simpl.
  repeat split.
  - destruct l1; reflexivity.
  - destruct c1; reflexivity.
  - destruct l1, l2; simpl; intros H; try reflexivity; discriminate H.
  - destruct c1, c2; simpl; intros H; try reflexivity; discriminate H.
Qed.

(** ** More on copying and freeing records *)

Lemma bind_inv {A B} (m : M A) (k : A -> M B) (h h' : heap) (b : B) :
  bind m k h = Some (b, h') ->
  exists a h1, m h = Some (a, h1) /\ k a h1 = Some (b, h').
Proof.
  unfold bind. destruct (m h) as [[a h1]|]; [|discriminate].
  intros H. exists a, h1. split; [reflexivity | exact H].
Qed.

Lemma load_LogData_inv (p : addr) (h h' : heap) (d : LogData) :
  load_LogData p h = Some (d, h') -> h' = h /\ h !! p = Some (BLogData d).
Proof.
  unfold load_LogData. destruct (h !! p) as [[s|d'|s]|]; try discriminate.
  intros H. simplify_eq. split; reflexivity.
Qed.

Lemma store_LogData_inv (p : addr) (d : LogData) (h h' : heap) (u : unit) :
  store_LogData p d h = Some (u, h') ->
  h' = <[p := BLogData d]> h /\ exists d0, h !! p = Some (BLogData d0).
Proof.
  unfold store_LogData. destruct (h !! p) as [[s|d'|s]|]; try discriminate.
  intros H. simplify_eq. split; [reflexivity | eexists; reflexivity].
Qed.

Lemma malloc_inv (choice : option addr) (junk : block) (h h' : heap) (r : ptr) :
  malloc choice junk h = Some (r, h') ->
  (r = None /\ h' = h) \/
  (exists c, r = Some c /\ choice = Some c /\ h !! c = None /\ h' = <[c := junk]> h).
Proof.
  unfold malloc. destruct choice as [c|]; [destruct (h !! c) eqn:Hc|];
    intros H; simplify_eq; auto.
  right. exists c. auto.
Qed.


Lemma set_level_inv p v h h' u :
  set_level p v h = Some (u, h') ->
  exists d, h !! p = Some (BLogData d) /\
            h' = <[p := BLogData {| msg := msg d; level := v; component := component d |}]> h.
Proof.
  unfold set_level. intros H. apply bind_inv in H as (d & h1 & Hl & Hs).
  apply load_LogData_inv in Hl as [-> Hp]. apply store_LogData_inv in Hs as [-> _].
  exists d. auto.
Qed.

Lemma set_component_inv p v h h' u :
  set_component p v h = Some (u, h') ->
  exists d, h !! p = Some (BLogData d) /\
            h' = <[p := BLogData {| msg := msg d; level := level d; component := v |}]> h.
Proof.
  unfold set_component. intros H. apply bind_inv in H as (d & h1 & Hl & Hs).
  apply load_LogData_inv in Hl as [-> Hp]. apply store_LogData_inv in Hs as [-> _].
  exists d. auto.
Qed.

Lemma set_msg_inv p v h h' u :
  set_msg p v h = Some (u, h') ->
  exists d, h !! p = Some (BLogData d) /\
            h' = <[p := BLogData {| msg := v; level := level d; component := component d |}]> h.
Proof.
  unfold set_msg. intros H. apply bind_inv in H as (d & h1 & Hl & Hs).
  apply load_LogData_inv in Hl as [-> Hp]. apply store_LogData_inv in Hs as [-> _].
  exists d. auto.
Qed.

Lemma strdup_inv choice p h h' r :
  strdup choice p h = Some (r, h') ->
  exists txt, h !! p = Some (BChars txt) /\
    ((r = None /\ h' = h) \/
     (exists q, r = Some q /\ choice = Some q /\ h !! q = None /\ h' = <[q := BChars txt]> h)).
Proof.
  unfold strdup. intros H. apply bind_inv in H as (txt & h1 & Hl & Hm).
  unfold load_cstr in Hl. destruct (h !! p) as [[s|d'|s]|] eqn:Hp; try discriminate.
  simplify_eq. exists txt. split; [reflexivity|].
  apply malloc_inv in Hm. exact Hm.
Qed.

(** X19.  [CopyLogData] never touches what is already in memory: for
    every allocator behaviour and every input on which it is defined,
    each live object is still there, unchanged, afterwards; a non-null
    result is a record at an address that was not in use; a null result
    means that nothing was allocated. *)
Theorem CopyLogData_preserves_memory :
  forall (al : Allocator) (orig r : ptr) (h h' : heap),
    CForwardingLogger_CopyLogData al orig h = Some (r, h') ->
    (forall a b, h !! a = Some b -> h' !! a = Some b) /\
    (forall c, r = Some c -> h !! c = None /\ exists d', h' !! c = Some (BLogData d')) /\
    (r = None -> h' = h).
Proof.
  intros al [o|] r h h' H; [|unfold CForwardingLogger_CopyLogData, ret in H; by simplify_eq].
  unfold CForwardingLogger_CopyLogData in H.
  apply bind_inv in H as (copy & h1 & Hm & H).
  apply malloc_inv in Hm as [[-> ->] | (c & -> & Hch & Hc & ->)].
  { unfold ret in H. by simplify_eq. }
  apply bind_inv in H as (d1 & ? & Hl1 & H). apply load_LogData_inv in Hl1 as [-> Hd1].
  apply bind_inv in H as (? & h2 & Hs1 & H). apply set_level_inv in Hs1 as (e1 & He1 & ->).
  apply bind_inv in H as (d2 & ? & Hl2 & H). apply load_LogData_inv in Hl2 as [-> Hd2].
  apply bind_inv in H as (? & h3 & Hs2 & H). apply set_component_inv in Hs2 as (e2 & He2 & ->).
  apply bind_inv in H as (d3 & ? & Hl3 & H). apply load_LogData_inv in Hl3 as [-> Hd3].
  apply bind_inv in H as (? & h4 & Hmsg & H). unfold ret in H. simplify_eq.
  destruct (msg d3) as [s|].
  - apply bind_inv in Hmsg as (q & h5 & Hdup & Hset).
    apply strdup_inv in Hdup as (txt & Hs & [[-> ->] | (q' & -> & Hq & Hqf & ->)]);
      apply set_msg_inv in Hset as (e3 & He3 & ->).
    + split; [|split; [intros c' [= <-]; split; [done | eexists; by simplify_map_eq]
                     | intros [=]]].
      intros a b Hab. assert (a <> c) by congruence. by simplify_map_eq.
    + assert (q' <> c) by (intros ->; by simplify_map_eq).
      split; [|split; [intros c' [= <-]; split; [done | eexists; by simplify_map_eq]
                     | intros [=]]].
      intros a b Hab. assert (a <> c) by congruence.
      assert (a <> q') by (intros ->; by simplify_map_eq).
      by simplify_map_eq.
  - unfold ret in Hmsg. simplify_eq.
    split; [|split; [intros c' [= <-]; split; [done | eexists; by simplify_map_eq]
                   | intros [=]]].
    intros a b Hab. assert (a <> c) by congruence. by simplify_map_eq.
Qed.

(** X20.  On a well-formed record (live, its text null or a C string)
    [CopyLogData] is defined under every allocator behaviour.  When it
    returns a record, that record has the original's level and
    component; and if the original has a text, the copy's text is either
    null (the duplication failed) or a block that was not in use before
    and now holds the same characters. *)
Theorem CopyLogData_defined_on_well_formed :
  forall (al : Allocator) (h : heap) (o : addr) (d : LogData),
    well_formed_record h o d ->
    exists r h',
      CForwardingLogger_CopyLogData al (Some o) h = Some (r, h') /\
      forall c, r = Some c ->
        exists mp,
          h' !! c = Some (BLogData {| msg := mp; level := level d;
                                      component := component d |}) /\
          forall s, msg d = Some s ->
            mp = None \/
            exists q txt, mp = Some q /\ h !! q = None /\ q <> c /\
                          h !! s = Some (BChars txt) /\ h' !! q = Some (BChars txt).
Proof.
  intros [mr junk sr] h o d [Ho Hmsg].
  unfold CForwardingLogger_CopyLogData, bind, malloc. simpl.
  destruct mr as [c|]; [destruct (h !! c) eqn:Hc|];
    try (eexists _, _; split; [reflexivity | intros ? [=]]).
  assert (o <> c) by congruence.
  unfold set_level, set_component, set_msg, strdup, bind, malloc,
    load_LogData, store_LogData, load_cstr, ret.
  simplify_map_eq.
  destruct (msg d) as [s|] eqn:Hs.
  - destruct Hmsg as [txt Htxt]. assert (s <> c) by congruence.
    simplify_map_eq.
    destruct sr as [q|]; [destruct (decide (q = c)) as [->|Hqc]|].
    + simplify_map_eq. eexists _, _. split; [reflexivity|].
      intros c' [= <-]. eexists. split; [by simplify_map_eq|].
      intros s' [= <-]. by left.
    + simplify_map_eq. destruct (h !! q) eqn:Hq.
      * simplify_map_eq. eexists _, _. split; [reflexivity|].
        intros c' [= <-]. eexists. split; [by simplify_map_eq|].
        intros s' [= <-]. by left.
      * simplify_map_eq. eexists _, _. split; [reflexivity|].
        intros c' [= <-]. eexists. split; [by simplify_map_eq|].
        intros s' [= <-]. right. exists q, txt. by simplify_map_eq.
    + simplify_map_eq. eexists _, _. split; [reflexivity|].
      intros c' [= <-]. eexists. split; [by simplify_map_eq|].
      intros s' [= <-]. by left.
  - eexists _, _. split; [reflexivity|].
    intros c' [= <-]. eexists. split; [by simplify_map_eq|]. intros s' [=].
Qed.



(** X23.  A record with a text, both allocations succeeding: the copy is
    complete.  It sits at the address [malloc] returned, has the
    original's level and component, and its text is a new block, apart
    from the original's, holding the same characters; the original
    record and its text are unchanged. *)
Theorem CopyLogData_copies_text_record :
  forall (al : Allocator) (h : heap) (o s c q : addr) (d : LogData) (txt : string),
    h !! o = Some (BLogData d) ->
    msg d = Some s ->
    h !! s = Some (BChars txt) ->
    malloc_result al = Some c -> h !! c = None ->
    strdup_result al = Some q -> h !! q = None -> q <> c ->
    exists h',
      CForwardingLogger_CopyLogData al (Some o) h = Some (Some c, h') /\
      h' !! c = Some (BLogData {| msg := Some q; level := level d;
                                  component := component d |}) /\
      h' !! q = Some (BChars txt) /\
      q <> s /\
      h' !! o = Some (BLogData d) /\
      h' !! s = Some (BChars txt).
Proof.
  intros al h o s c q d txt Ho Hmsg Htxt Hmal Hc Hdup Hq Hqc.
  eexists. split; [eapply CopyLogData_deep_copy; eassumption|].
  assert (o <> c) by congruence. assert (s <> c) by congruence.
  assert (q <> s) by congruence. assert (o <> q) by congruence.
  repeat split; try done; by simplify_map_eq.
Qed.

(** ** cancelable.h *)

(** X24.  A [CancelHandle] only forwards: through any number of nested
    handles, [cancel()] does what [cancel()] on the innermost target
    does, so one call reaches an object of another class exactly once
    and reaches nothing for a [NullCancelable]; a handle built on an
    empty pointer makes the call undefined, at any depth. *)
Theorem CancelHandle_forwards :
  forall (n : nat) (x : Cancelable),
    Cancelable_cancel (handles n x) = Cancelable_cancel x /\
    Cancelable_cancel (handles n NullCancelable) = Some [] /\
    (forall id, Cancelable_cancel (handles n (OtherCancelable id)) = Some [id]) /\
    Cancelable_cancel (handles n (CancelHandle sp_empty)) = None.
Proof.
  intros n x.
  assert (H : forall y, Cancelable_cancel (handles n y) = Cancelable_cancel y).
  { intros y. induction n as [|k IH]; simpl; [reflexivity | exact IH]. }
  repeat split; try intros id; rewrite H; reflexivity.
Qed.

(** * Instances of the further properties *)

Lemma ShouldLog_monotone_in_level_witness :
  LoggerInterface_ShouldLog {| component_mask_ := 2; level_threshold_ := 3 |}
    kWarning kRPC = true /\
  LogLevel_val kWarning <= LogLevel_val kError /\
  LoggerInterface_ShouldLog {| component_mask_ := 2; level_threshold_ := 3 |}
    kError kRPC = true.
Proof.
  split; [reflexivity|]. split; [simpl; lia|].
  apply (ShouldLog_monotone_in_level {| component_mask_ := 2; level_threshold_ := 3 |}
           kRPC kWarning kError); [reflexivity | simpl; lia].
Defined.

Lemma MaskOne_isolates_component_witness :
  logger_impl_ World_init = Some (IsStderrLogger StderrLogger_ctor) /\
  forall l c,
    LogManager_ShouldLog l c
      (LogManager_EnableLogForComponent kRPC (disable_all_components World_init)) =
    bool_decide (c = kRPC) &&
    negb (LogLevel_val l <? level_threshold_ (Logger_base (IsStderrLogger StderrLogger_ctor))).
Proof.
  split; [reflexivity|].
  apply (MaskOne_isolates_component World_init (IsStderrLogger StderrLogger_ctor) kRPC).
  reflexivity.
Defined.

Lemma SetLogLevel_effect_witness :
  logger_impl_ World_init = Some (IsStderrLogger StderrLogger_ctor) /\
  output (LogManager_SetLogLevel kWarning World_init) =
    output World_init ++ [Cerr ("SETLOGLEVEL_CALLED_" +:+ endl)] /\
  forall l c,
    LogManager_ShouldLog l c (LogManager_SetLogLevel kWarning World_init) =
    (LogLevel_val kWarning <=? LogLevel_val l) &&
    Z.testbit (component_mask_ (Logger_base (IsStderrLogger StderrLogger_ctor)))
      (component_bit c).
Proof.
  split; [reflexivity|].
  apply (SetLogLevel_effect World_init (IsStderrLogger StderrLogger_ctor) kWarning).
  reflexivity.
Defined.

Lemma filter_ops_keep_the_sink_witness :
  forallb is_filter_op
    [OpDisableLogForComponent kRPC; OpSetLogLevel kError; OpEnableLogForComponent kRPC] =
    true /\
  forall env m,
    option_map (fun lg => Logger_Write env lg m)
      (logger_impl_
         (LogManager_apply_all
            [OpDisableLogForComponent kRPC; OpSetLogLevel kError;
             OpEnableLogForComponent kRPC] World_init)) =
    option_map (fun lg => Logger_Write env lg m) (logger_impl_ World_init).
Proof.
  split; [reflexivity|].
  apply (filter_ops_keep_the_sink
           [OpDisableLogForComponent kRPC; OpSetLogLevel kError;
            OpEnableLogForComponent kRPC] World_init).
  reflexivity.
Defined.


Lemma sink_replaced_in_flight_witness :
  render_args example_heap ([ACharPtr (Some 5%positive)] ++ [AString "full"]) =
    Some "disk full" /\
  exists t',
    log_statement example_env example_heap kError kRPC
      (map StepAppend [ACharPtr (Some 5%positive)] ++
       StepManager (OpSetLoggerImplementation (Some (capturing_sink 4 0)))
       :: map StepAppend [AString "full"])
      {| world := {| logger_impl_ := Some (capturing_sink 3 2); output := [] |};
         calls := [] |} = Some t' /\
    logger_impl_ (world t') = Some (capturing_sink 4 0) /\
    output (world t') =
      [] ++ (if LoggerInterface_ShouldLog (Logger_base (capturing_sink 3 2)) kError kRPC
             then Logger_Write example_env (capturing_sink 4 0)
                    (accepted_message kError kRPC "disk full")
             else []).
Proof.
  split; [reflexivity|].
  destruct (sink_replaced_in_flight example_env example_heap kError kRPC
              (capturing_sink 3 2) (Some (capturing_sink 4 0))
              [ACharPtr (Some 5%positive)] [AString "full"] "disk full" [] [] eq_refl)
    as (t' & Hrun & Himpl & Hout & _).
  exists t'. split; [exact Hrun|]. split; [exact Himpl | exact Hout].
Defined.

Lemma cleared_callback_forwards_nothing_witness :
  render_args ∅ [AString "x"] = Some "x" /\
  exists t',
    log_statement example_env ∅ kError kRPC (map StepAppend [AString "x"])
      {| world := {| logger_impl_ :=
                       Some (IsCForwardingLogger
                               (CForwardingLogger_SetCallback None CForwardingLogger_ctor));
                     output := [] |};
         calls := [] |} = Some t' /\
    world t' =
      {| logger_impl_ :=
           Some (IsCForwardingLogger
                   (CForwardingLogger_SetCallback None CForwardingLogger_ctor));
         output := [] |}.
Proof.
  split; [reflexivity|].
  destruct (cleared_callback_forwards_nothing example_env ∅ kError kRPC
              CForwardingLogger_ctor [AString "x"] "x" [] [] eq_refl)
    as (t' & Hrun & Hworld & _).
  exists t'. split; [exact Hrun | exact Hworld].
Defined.

Lemma forwarded_record_is_well_formed_witness :
  In (CallbackInvoked 1%positive 4 2 "boom")
     (CForwardingLogger_Write
        {| cfwd_base := LoggerInterface_ctor; callback_ := Some 1%positive |}
        (accepted_message kError kRPC "boom")) /\
  worth_reporting_ (accepted_message kError kRPC "boom") = true.
Proof.
  assert (Hin : In (CallbackInvoked 1%positive 4 2 "boom")
                   (CForwardingLogger_Write
                      {| cfwd_base := LoggerInterface_ctor; callback_ := Some 1%positive |}
                      (accepted_message kError kRPC "boom"))).
  { left. reflexivity. }
  split; [exact Hin|].
  exact (proj1 (proj2 (forwarded_record_is_well_formed _ _ _ Hin))).
Defined.

Lemma forwarded_text_is_cut_at_nul_witness :
  has_nul "ab" = false /\
  CForwardingLogger_Write
    {| cfwd_base := LoggerInterface_ctor; callback_ := Some 1%positive |}
    (accepted_message kError kRPC ("ab" +:+ String "000"%char "cd")) =
  [CallbackInvoked 1%positive (LogLevel_val kError) (LogSourceComponent_val kRPC) "ab"].
Proof.
  split; [reflexivity|].
  exact (proj1 (proj2 (forwarded_text_is_cut_at_nul LoggerInterface_ctor 1%positive
                         kError kRPC "ab" "cd" eq_refl))).
Defined.



Lemma CopyLogData_preserves_memory_witness :
  CForwardingLogger_CopyLogData working_allocator (Some 1%positive) text_heap =
    Some (Some 2%positive,
          <[ 2%positive := BLogData {| msg := Some 3%positive; level := 3; component := 2 |} ]>
            (<[ 3%positive := BChars "hi" ]> text_heap)) /\
  forall a b,
    text_heap !! a = Some b ->
    <[ 2%positive := BLogData {| msg := Some 3%positive; level := 3; component := 2 |} ]>
      (<[ 3%positive := BChars "hi" ]> text_heap) !! a = Some b.
Proof.
  assert (Hrun : CForwardingLogger_CopyLogData working_allocator (Some 1%positive) text_heap =
    Some (Some 2%positive,
          <[ 2%positive := BLogData {| msg := Some 3%positive; level := 3; component := 2 |} ]>
            (<[ 3%positive := BChars "hi" ]> text_heap))) by reflexivity.
  split; [exact Hrun|].
  exact (proj1 (CopyLogData_preserves_memory _ _ _ _ _ Hrun)).
Defined.

Lemma CopyLogData_defined_on_well_formed_witness :
  well_formed_record text_heap 1%positive text_record /\
  exists r h',
    CForwardingLogger_CopyLogData (stale_allocator None) (Some 1%positive) text_heap =
      Some (r, h').
Proof.
  assert (Hwf : well_formed_record text_heap 1%positive text_record).
  { split; [reflexivity|]. simpl. exists "hi". reflexivity. }
  split; [exact Hwf|].
  destruct (CopyLogData_defined_on_well_formed (stale_allocator None) text_heap
              1%positive text_record Hwf) as (r & h' & Hrun & _).
  exists r, h'. exact Hrun.
Defined.


Lemma CopyLogData_copies_text_record_witness :
  text_heap !! 1%positive = Some (BLogData text_record) /\
  msg text_record = Some 5%positive /\
  text_heap !! 5%positive = Some (BChars "hi") /\
  malloc_result working_allocator = Some 2%positive /\
  text_heap !! 2%positive = None /\
  strdup_result working_allocator = Some 3%positive /\
  text_heap !! 3%positive = None /\
  3%positive <> 2%positive /\
  exists h',
    CForwardingLogger_CopyLogData working_allocator (Some 1%positive) text_heap =
      Some (Some 2%positive, h') /\
    h' !! 3%positive = Some (BChars "hi").
Proof.
  assert (Hne : 3%positive <> 2%positive) by discriminate.
  repeat (split; [first [reflexivity | exact Hne]|]).
  destruct (CopyLogData_copies_text_record working_allocator text_heap
              1%positive 5%positive 2%positive 3%positive text_record "hi"
              eq_refl eq_refl eq_refl eq_refl eq_refl eq_refl eq_refl Hne)
    as (h' & Hrun & _ & Hq & _).
  exists h'. split; [exact Hrun | exact Hq].
Defined.

Lemma copy_then_free_restores_witness :
  text_heap !! 1%positive = Some (BLogData text_record) /\
  msg text_record = Some 5%positive /\
  text_heap !! 5%positive = Some (BChars "hi") /\
  malloc_result working_allocator = Some 2%positive /\
  text_heap !! 2%positive = None /\
  strdup_result working_allocator = Some 3%positive /\
  text_heap !! 3%positive = None /\
  3%positive <> 2%positive /\
  copy_then_free working_allocator (Some 1%positive) text_heap = Some (tt, text_heap).
Proof.
  assert (Hne : 3%positive <> 2%positive) by discriminate.
  repeat (split; [first [reflexivity | exact Hne]|]).
  exact (copy_then_free_restores working_allocator text_heap
           1%positive 5%positive 2%positive 3%positive text_record "hi"
           eq_refl eq_refl eq_refl eq_refl eq_refl eq_refl eq_refl Hne).
Defined.

